(** * A shallow embedding of the single-position backtest engine

    Source files embedded here:
    - [strategy/base_strategy.py]: [BaseStrategy.backtest] and
      [BaseStrategy.calculate_performance];
    - [run_macd_strategy.py]: the trade pairing and the win rate of [main];
    - [strategy/macd_strategy.py]: [MACDStrategy.calculate_indicators] and
      [MACDStrategy.generate_signals], and [BaseStrategy.run] with them;
    - [strategy/bollinger_strategy.py]: [BollingerStrategy.generate_signals]
      on the table left by [dropna].

    The pandas table [self.data] is a record of columns, each column a list
    indexed by row position; [.iloc[i]] reads and writes are list lookups and
    in-place updates.  Numbers held in float columns are exact rationals
    ([Q]), compared with [Qeq] as Python's [==] compares values; share counts
    and signals are integers ([Z]).  Exceptions are an error result. *)

From Stdlib Require Import ZArith QArith Qround Qminmax Lia Lqa.
From stdpp Require Import base list sorting.

Open Scope Z_scope.

(** ** Exceptions *)

Inductive exn : Type :=
| IndexError
| ZeroDivisionError
| OverflowError
| ValueError.

Inductive result (A : Type) : Type :=
| Ok (a : A)
| Raise (e : exn).
Arguments Ok {A} a.
Arguments Raise {A} e.

#[global] Instance result_ret : MRet result := fun A a => Ok a.
#[global] Instance result_bind : MBind result := fun A B f m =>
  match m with
  | Ok a => f a
  | Raise e => Raise e
  end.

(** ** Numbers *)

(** [int(x)] on a finite float: truncation toward zero. *)
Definition py_int (q : Q) : Z := Z.quot (Qnum q) (Zpos (Qden q)).

(** [int(a / p)] where [a] and [p] are numpy scalars: a zero divisor gives
    [inf] (or [nan] for [0 / 0]) and [int] then raises. *)
Definition py_int_div (a p : Q) : result Z :=
  if Qeq_bool p 0 then
    (if Qeq_bool a 0 then Raise ValueError else Raise OverflowError)
  else Ok (py_int (a / p)).

(** ** The table *)

(** One row of the input columns: the index (a calendar day number), the
    close (column 收盘) and the signal (column 信号). *)
Record Bar : Type := mkBar {
  date : Z;
  close : Q;
  signal : Z
}.

(** The columns [backtest] adds to [self.data], with the loop variable
    [current_position] (0: flat, 1: holding). *)
Record Frame : Type := mkFrame {
  cash : list Q;              (* 资金 *)
  position : list Z;          (* 持仓 *)
  position_value : list Q;    (* 持仓价值 *)
  total_assets : list Q;      (* 总资产 *)
  current_position : Z
}.

(** [col.iloc[i]] as a read. *)
Definition iloc {A : Type} (col : list A) (i : nat) : result A :=
  match col !! i with
  | Some x => Ok x
  | None => Raise IndexError
  end.

(** [col.iloc[i] = x]. *)
Definition iloc_set {A : Type} (col : list A) (i : nat) (x : A)
  : result (list A) :=
  if decide (i < length col)%nat then Ok (<[i:=x]> col) else Raise IndexError.

(** ** [BaseStrategy.backtest], lines 56-98

    Every [Bar] carries a signal, so the guard of line 52 (signal column
    missing) never fires; the [print] calls are left out. *)

(** Lines 57-63: every column is filled with its initial value. *)
Definition backtest_init (initial_capital : Q) (data : list Bar) : Frame :=
  {| cash := replicate (length data) initial_capital;
     position := replicate (length data) 0;
     position_value := replicate (length data) 0%Q;
     total_assets := replicate (length data) initial_capital;
     current_position := 0 |}.

(** Lines 66-98: the body of the loop at row [i]. *)
Definition loop_body (data : list Bar) (i : nat) (s : Frame) : result Frame :=
  c_prev ← iloc (cash s) (i - 1);
  cash1 ← iloc_set (cash s) i c_prev;
  p_prev ← iloc (position s) (i - 1);
  pos1 ← iloc_set (position s) i p_prev;
  bar ← iloc data i;
  let price := close bar in
  '(cash2, pos2, cp2) ←
    (if (signal bar =? 1) && (current_position s =? 0) then
       available_capital ← iloc cash1 i;
       shares_to_buy ← py_int_div available_capital price;
       if shares_to_buy >? 0 then
         let cost := (inject_Z shares_to_buy * price)%Q in
         c ← iloc cash1 i;
         cash2 ← iloc_set cash1 i (c - cost)%Q;
         pos2 ← iloc_set pos1 i shares_to_buy;
         Ok (cash2, pos2, 1)
       else Ok (cash1, pos1, current_position s)
     else if (signal bar =? -1) && (current_position s =? 1) then
       shares_to_sell ← iloc pos1 i;
       if shares_to_sell >? 0 then
         let revenue := (inject_Z shares_to_sell * price)%Q in
         c ← iloc cash1 i;
         cash2 ← iloc_set cash1 i (c + revenue)%Q;
         pos2 ← iloc_set pos1 i 0;
         Ok (cash2, pos2, 0)
       else Ok (cash1, pos1, current_position s)
     else Ok (cash1, pos1, current_position s));
  p ← iloc pos2 i;
  value ← iloc_set (position_value s) i (inject_Z p * price)%Q;
  c ← iloc cash2 i;
  v ← iloc value i;
  total ← iloc_set (total_assets s) i (c + v)%Q;
  Ok {| cash := cash2; position := pos2; position_value := value;
        total_assets := total; current_position := cp2 |}.

(** [for i in rows: s = body(i, s)], stopping at the first exception. *)
Fixpoint for_range {S : Type} (body : nat -> S -> result S)
  (rows : list nat) (s : S) : result S :=
  match rows with
  | [] => Ok s
  | i :: rows' => s' ← body i s; for_range body rows' s'
  end.

(** The table after the rows [1 .. k] have been processed. *)
Definition backtest_upto (initial_capital : Q) (data : list Bar) (k : nat)
  : result Frame :=
  for_range (loop_body data) (seq 1 k) (backtest_init initial_capital data).

(** Lines 57-98: [for i in range(1, len(self.data))]. *)
Definition backtest_timeline (initial_capital : Q) (data : list Bar)
  : result Frame :=
  backtest_upto initial_capital data (length data - 1).

(** ** [BaseStrategy.calculate_performance], lines 104-143 *)

(** [col.iloc[-1]]. *)
Definition iloc_last {A : Type} (col : list A) : result A :=
  match last col with
  | Some x => Ok x
  | None => Raise IndexError
  end.

(** [col.cummax()]: the running maximum, row by row. *)
Fixpoint cummax_from (peak : Q) (col : list Q) : list Q :=
  match col with
  | [] => []
  | x :: col' => Qmax peak x :: cummax_from (Qmax peak x) col'
  end.

Definition cummax (col : list Q) : list Q :=
  match col with
  | [] => []
  | x :: col' => x :: cummax_from x col'
  end.

(** Line 124: [(总资产 - 累计最大资产) / 累计最大资产 * 100], row by row.
    A zero peak makes numpy's quotient non-finite; the results below are
    stated for columns whose peaks are positive. *)
Definition drawdown (total peak : list Q) : list Q :=
  zip_with (fun e p => ((e - p) / p * 100)%Q) total peak.

(** [col.min()]; [None] is the [nan] pandas gives for an empty column. *)
Definition series_min (col : list Q) : option Q :=
  match col with
  | [] => None
  | x :: col' => Some (foldl Qmin x col')
  end.

(** Lines 123-125. *)
Definition max_drawdown_of (total : list Q) : option Q :=
  series_min (drawdown total (cummax total)).

(** [len(self.data[self.data['信号'] != 0])]. *)
Definition nonzero_signals (data : list Bar) : list Bar :=
  filter (fun b => signal b ≠ 0) data.

Record Performance : Type := mkPerformance {
  perf_initial_capital : Q;
  perf_final_capital : Q;
  total_return : Q;
  annual_return : Q;
  max_drawdown : option Q;
  trade_count : nat
}.

Section Performance.

(** Python's float power [x ** y], which has no rational model; the
    results below do not depend on it. *)
Variable float_pow : Q -> Q -> Q.

Definition calculate_performance (initial_capital : Q) (data : list Bar)
  (s : Frame) : result Performance :=
  final_capital ← iloc_last (total_assets s);
  let total_return := ((final_capital - initial_capital) / initial_capital * 100)%Q in
  d_last ← iloc_last (date <$> data);
  d_first ← iloc (date <$> data) 0;
  let days := d_last - d_first in
  exponent ← (if days =? 0 then Raise ZeroDivisionError
              else Ok (365 / inject_Z days)%Q);
  let annual_return := (float_pow (final_capital / initial_capital) exponent - 1)%Q in
  let annual_return_pct := (annual_return * 100)%Q in
  Ok {| perf_initial_capital := initial_capital;
        perf_final_capital := final_capital;
        total_return := total_return;
        annual_return := annual_return_pct;
        max_drawdown := max_drawdown_of (total_assets s);
        trade_count := length (nonzero_signals data) |}.

(** [BaseStrategy.backtest], lines 56-102: the loop, then the performance
    report on the table the loop leaves in [self.data]. *)
Definition backtest (initial_capital : Q) (data : list Bar)
  : result (Frame * Performance) :=
  s ← backtest_timeline initial_capital data;
  perf ← calculate_performance initial_capital data s;
  Ok (s, perf).

End Performance.

(** ** The trade pairing of [main], run_macd_strategy.py lines 71-109 *)

Record TradeRecord : Type := mkTradeRecord {
  buy_date : Z;
  buy_price : Q;
  sell_date : Z;
  sell_price : Q;
  profit_pct : Q
}.

(** [signals.sort_index()]: rows ordered by date; rows with the same date
    keep their order. *)
Fixpoint insert_by_date (b : Bar) (rows : list Bar) : list Bar :=
  match rows with
  | [] => [b]
  | x :: rows' =>
      if date b <=? date x then b :: rows else x :: insert_by_date b rows'
  end.

Definition sort_index (rows : list Bar) : list Bar :=
  foldr insert_by_date [] rows.

(** Lines 86-98: the record appended for a buy row and a sell row. *)
Definition trade_record (b s : Bar) : TradeRecord :=
  {| buy_date := date b;
     buy_price := close b;
     sell_date := date s;
     sell_price := close s;
     profit_pct := ((close s - close b) / close b * 100)%Q |}.

(** The variables of the [while] loop. *)
Record Pairing : Type := mkPairing {
  pair_i : nat;
  profitable_trades : nat;
  trade_records : list TradeRecord
}.

(** Lines 85-106: one pass through the body of the [while] loop. *)
Definition pair_body (sorted_signals : list Bar) (s : Pairing)
  : result Pairing :=
  let i := pair_i s in
  b ← iloc sorted_signals i;
  n ← iloc sorted_signals (i + 1);
  if (signal b =? 1) && (signal n =? -1) then
    let r := trade_record b n in
    Ok {| pair_i := i + 2;
          profitable_trades :=
            if Qlt_le_dec (buy_price r) (sell_price r)
            then profitable_trades s + 1 else profitable_trades s;
          trade_records := trade_records s ++ [r] |}
  else
    Ok {| pair_i := i + 1;
          profitable_trades := profitable_trades s;
          trade_records := trade_records s |}.

(** [while i < len(sorted_signals) - 1: body], unfolded at most [fuel]
    times. *)
Fixpoint pair_while (fuel : nat) (sorted_signals : list Bar) (s : Pairing)
  : result Pairing :=
  match fuel with
  | O => Ok s
  | S fuel' =>
      if decide (Z.of_nat (pair_i s) < Z.of_nat (length sorted_signals) - 1)
      then s' ← pair_body sorted_signals s; pair_while fuel' sorted_signals s'
      else Ok s
  end.

(** Lines 71-106.  Every pass advances [i], so [len(sorted_signals)] passes
    reach the exit of the loop ([pair_trades_adjacent] below). *)
Definition pair_trades (data : list Bar) : result Pairing :=
  let sorted_signals := sort_index (nonzero_signals data) in
  pair_while (length sorted_signals) sorted_signals
    {| pair_i := 0; profitable_trades := 0; trade_records := [] |}.

(** Line 109: [profitable_trades / max(1, len(trade_records)) * 100]. *)
Definition win_rate (s : Pairing) : Q :=
  (inject_Z (Z.of_nat (profitable_trades s))
   / inject_Z (Z.max 1 (Z.of_nat (length (trade_records s)))) * 100)%Q.

(** ** The pairing and the drawdown as the specification words them *)

(** The first +1 is kept pending until the next -1 after it; the signals
    in between are skipped; a pending +1 at the end is dropped. *)
Fixpoint first_buy_next_sell (pending : option Bar) (rows : list Bar)
  : list TradeRecord :=
  match rows with
  | [] => []
  | x :: rows' =>
      match pending with
      | None =>
          if signal x =? 1 then first_buy_next_sell (Some x) rows'
          else first_buy_next_sell None rows'
      | Some b =>
          if signal x =? -1
          then trade_record b x :: first_buy_next_sell None rows'
          else first_buy_next_sell (Some b) rows'
      end
  end.

(** [max(total_equity[0..i])]. *)
Definition running_peak (total : list Q) (i : nat) : option Q :=
  match take (S i) total with
  | [] => None
  | x :: prefix => Some (foldl Qmax x prefix)
  end.

(** Drawdown at bar [i]. *)
Definition drawdown_at (total : list Q) (i : nat) : option Q :=
  e ← total !! i;
  p ← running_peak total i;
  Some ((e - p) / p * 100)%Q.

(** The minimum of the drawdowns over all bars. *)
Definition max_drawdown_spec (total : list Q) : option Q :=
  series_min (omap (drawdown_at total) (seq 0 (length total))).

(** The equity never decreases from a bar to a later one. *)
Definition non_decreasing (total : list Q) : Prop :=
  forall i j x y, (i <= j)%nat ->
    total !! i = Some x -> total !! j = Some y -> (x <= y)%Q.

(** ** Example tables *)

Definition bars_of (closes : list Q) (signals : list Z) : list Bar :=
  zip_with (fun '(d, c) s => mkBar d c s)
           (zip (Z.of_nat <$> seq 0 (length closes)) closes) signals.

Definition example_data : list Bar :=
  bars_of [10; 9; 8; 12; 15]%Q [0; 0; 1; 0; -1].

Definition repeated_buy_data : list Bar :=
  bars_of [8; 9; 10]%Q [1; 1; -1].

Definition single_bar_data : list Bar :=
  bars_of [10]%Q [0].



(** ** The loop body as a transition on the previous row *)

(** What lines 73-94 do to the pair (cash, shares) copied from row [i-1]
    and to [current_position]. *)
Definition step_row (bar : Bar) (cp : Z) (c : Q) (p : Z)
  : result (Q * Z * Z) :=
  if (signal bar =? 1) && (cp =? 0) then
    n ← py_int_div c (close bar);
    if n >? 0 then Ok ((c - inject_Z n * close bar)%Q, n, 1)
    else Ok (c, p, cp)
  else if (signal bar =? -1) && (cp =? 1) then
    if p >? 0 then Ok ((c + inject_Z p * close bar)%Q, 0, 0)
    else Ok (c, p, cp)
  else Ok (c, p, cp).

(** Row [i] of every column once the body has run. *)
Definition commit (i : nat) (bar : Bar) (s : Frame) (x : Q * Z * Z) : Frame :=
  let '(c, p, cp) := x in
  {| cash := <[i:=c]> (cash s);
     position := <[i:=p]> (position s);
     position_value := <[i:=(inject_Z p * close bar)%Q]> (position_value s);
     total_assets :=
       <[i:=(c + inject_Z p * close bar)%Q]> (total_assets s);
     current_position := cp |}.

(** Every column has [n] rows. *)
Definition well_formed (n : nat) (s : Frame) : Prop :=
  length (cash s) = n /\ length (position s) = n /\
  length (position_value s) = n /\ length (total_assets s) = n.

Ltac unfold_result :=
  unfold mbind, result_bind, mret, result_ret, iloc, iloc_set in *.

(** Reads and writes at a row that is in range. *)
Ltac settle_rows :=
  repeat (rewrite ?decide_True by (rewrite ?length_insert; assumption);
          rewrite ?list_lookup_insert_eq, ?list_insert_insert_eq
            by (rewrite ?length_insert; assumption);
          simpl).

(** The loop variable and the share count of the last processed row agree:
    flat with no share, or holding at least one. *)
Definition flat_or_long (cp p : Z) : Prop :=
  (cp = 0 /\ p = 0) \/ (cp = 1 /\ p > 0).

(** The data model of a bar: its close is positive. *)
Definition positive_closes (data : list Bar) : Prop :=
  forall bar, bar ∈ data -> (0 < close bar)%Q.

(** What holds of the table once row [k] has been processed. *)
Definition state_inv (n k : nat) (s : Frame) : Prop :=
  well_formed n s /\
  exists p, position s !! k = Some p /\ flat_or_long (current_position s) p.

(** Row [j] of the four columns. *)
Definition row_of (s : Frame) (j : nat)
  : option Q * option Z * option Q * option Q :=
  (cash s !! j, position s !! j, position_value s !! j, total_assets s !! j).

(** The records of the loop, read off the rows from left to right: a row
    with signal +1 directly followed by a row with signal -1 gives a record
    and both rows are consumed; otherwise one row is consumed. *)
Fixpoint adjacent_pairs (rows : list Bar) : list TradeRecord :=
  match rows with
  | b :: rows' =>
      match rows' with
      | n :: rest =>
          if (signal b =? 1) && (signal n =? -1)
          then trade_record b n :: adjacent_pairs rest
          else adjacent_pairs rows'
      | [] => []
      end
  | [] => []
  end.

(** The number of records sold above their buy price. *)
Fixpoint count_wins (records : list TradeRecord) : nat :=
  match records with
  | [] => 0
  | r :: records' =>
      if Qlt_le_dec (buy_price r) (sell_price r)
      then S (count_wins records') else count_wins records'
  end.

(** [n] is the row right after [b] in [rows]. *)
Definition adjacent_in (rows : list Bar) (b n : Bar) : Prop :=
  exists before after, rows = before ++ b :: n :: after.

(** The index of the series: dates strictly increasing. *)
Definition increasing_dates (data : list Bar) : Prop :=
  StronglySorted (fun a b => date a < date b) data.

(** No bar of the rows [1 .. k] carries a buy signal. *)
Definition no_buy_upto (data : list Bar) (k : nat) : Prop :=
  forall j bar, (1 <= j <= k)%nat -> data !! j = Some bar -> signal bar <> 1.

(** Line 118: the calendar days between the first and the last bar; [None]
    on an empty table. *)
Definition elapsed_days (data : list Bar) : option Z :=
  match head data, last data with
  | Some first, Some final => Some (date final - date first)
  | _, _ => None
  end.

(** run_macd_strategy.py lines 72-73: the buy and the sell signals among
    the non-zero ones. *)
Definition buy_count (data : list Bar) : nat :=
  length (filter (fun b => signal b = 1) (nonzero_signals data)).

Definition sell_count (data : list Bar) : nat :=
  length (filter (fun b => signal b = -1) (nonzero_signals data)).

(** The dates of the records in the order they are listed: buy, sell, buy,
    sell, ... *)
Definition trade_dates (records : list TradeRecord) : list Z :=
  records ≫= (fun r => [buy_date r; sell_date r]).

(** ** [MACDStrategy], strategy/macd_strategy.py *)

(** [x < y] on floats, as a boolean. *)
Definition Qltb (x y : Q) : bool := negb (Qle_bool y x).

(** [col.ewm(span=span, adjust=False).mean()]: the first row is the first
    value, every later row is [(1 - alpha) * previous + alpha * value] with
    [alpha = 2 / (span + 1)]. *)
Fixpoint ewm_from (alpha prev : Q) (col : list Q) : list Q :=
  match col with
  | [] => []
  | x :: col' =>
      ((1 - alpha) * prev + alpha * x)%Q
        :: ewm_from alpha ((1 - alpha) * prev + alpha * x)%Q col'
  end.

(** pandas refuses a span below 1 with ValueError. *)
Definition ewm_mean (span : Z) (col : list Q) : result (list Q) :=
  if span <? 1 then Raise ValueError
  else Ok match col with
          | [] => []
          | x :: col' => x :: ewm_from (2 / (inject_Z span + 1))%Q x col'
          end.

(** The columns [calculate_indicators] adds. *)
Record MacdColumns : Type := mkMacdColumns {
  EMA_fast : list Q;
  EMA_slow : list Q;
  DIF : list Q;
  DEA : list Q;
  MACD : list Q
}.

(** Lines 37-57; [None] is the [return False] on an empty table. *)
Definition macd_calculate_indicators (fast_period slow_period signal_period : Z)
  (closes : list Q) : result (option MacdColumns) :=
  match closes with
  | [] => Ok None
  | _ :: _ =>
      ema_fast ← ewm_mean fast_period closes;
      ema_slow ← ewm_mean slow_period closes;
      let dif := zip_with Qminus ema_fast ema_slow in
      dea ← ewm_mean signal_period dif;
      let macd := zip_with (fun d e => ((d - e) * 2)%Q) dif dea in
      Ok (Some {| EMA_fast := ema_fast; EMA_slow := ema_slow;
                  DIF := dif; DEA := dea; MACD := macd |})
  end.

(** Lines 71-78: the body of the loop at row [i]; [and] reads its second
    operand only when the first holds. *)
Definition macd_signal_body (dif dea : list Q) (i : nat) (sig : list Z)
  : result (list Z) :=
  d0 ← iloc dif (i - 1);
  e0 ← iloc dea (i - 1);
  golden ← ((if Qltb d0 e0
            then d1 ← iloc dif i; e1 ← iloc dea i; Ok (Qltb e1 d1)
            else Ok false) : result bool);
  if (golden : bool) then iloc_set sig i 1
  else
    d0 ← iloc dif (i - 1);
    e0 ← iloc dea (i - 1);
    dead ← ((if Qltb e0 d0
            then d1 ← iloc dif i; e1 ← iloc dea i; Ok (Qltb d1 e1)
            else Ok false) : result bool);
    if (dead : bool) then iloc_set sig i (-1) else Ok sig.

(** Lines 65-81: the signal column, all 0, then the loop over the rows
    [1 .. len - 1]. *)
Definition macd_generate_signals (dif dea : list Q) : result (list Z) :=
  for_range (macd_signal_body dif dea) (seq 1 (length dif - 1))
    (replicate (length dif) 0).

(** The rule of lines 71-78 on two consecutive rows. *)
Definition macd_cross (d0 e0 d1 e1 : Q) : Z :=
  if Qltb d0 e0 && Qltb e1 d1 then 1
  else if Qltb e0 d0 && Qltb d1 e1 then -1
  else 0.

(** ** [BollingerStrategy.generate_signals], lines 64-83, on the table left
    by [dropna]: the closes and the two bands, row by row. *)

Definition boll_signal_body (closes lower upper : list Q) (i : nat)
  (sig : list Z) : result (list Z) :=
  c0 ← iloc closes (i - 1);
  l0 ← iloc lower (i - 1);
  buy ← ((if Qle_bool c0 l0
         then c1 ← iloc closes i; l1 ← iloc lower i; Ok (Qltb l1 c1)
         else Ok false) : result bool);
  if (buy : bool) then iloc_set sig i 1
  else
    c0 ← iloc closes (i - 1);
    u0 ← iloc upper (i - 1);
    sell ← ((if Qle_bool c0 u0
            then c1 ← iloc closes i; u1 ← iloc upper i; Ok (Qltb u1 c1)
            else Ok false) : result bool);
    if (sell : bool) then iloc_set sig i (-1) else Ok sig.

Definition boll_generate_signals (closes lower upper : list Q)
  : result (list Z) :=
  for_range (boll_signal_body closes lower upper) (seq 1 (length closes - 1))
    (replicate (length closes) 0).

(** The rule of lines 73-80 on two consecutive rows. *)
Definition boll_cross (c0 l0 u0 c1 l1 u1 : Q) : Z :=
  if Qle_bool c0 l0 && Qltb l1 c1 then 1
  else if Qle_bool c0 u0 && Qltb u1 c1 then -1
  else 0.


(** ** [BaseStrategy.run] with the methods of [MACDStrategy] *)

(** The table handed to [backtest]: index, close and signal of each row. *)
Definition macd_bars (data : list (Z * Q)) (signals : list Z) : list Bar :=
  zip_with (fun row s => mkBar (fst row) (snd row) s) data signals.

(** Lines 154-180 of base_strategy.py with the three methods of
    [MACDStrategy]: [False] without data or on an empty table, otherwise
    indicators, signals, backtest; [plot_results] draws and returns
    [True]. *)
Definition macd_run (float_pow : Q -> Q -> Q)
  (fast_period slow_period signal_period : Z) (initial_capital : Q)
  (data : option (list (Z * Q))) : result bool :=
  match data with
  | None => Ok false
  | Some rows =>
      indicators ← macd_calculate_indicators fast_period slow_period
                     signal_period (snd <$> rows);
      match indicators with
      | None => Ok false
      | Some cols =>
          signals ← macd_generate_signals (DIF cols) (DEA cols);
          report ← backtest float_pow initial_capital (macd_bars rows signals);
          Ok true
      end
  end.

(** ** Signal columns as a scan over consecutive rows *)

Fixpoint scan_rule {R : Type} (rule : R -> R -> Z) (prev : R) (rows : list R)
  : list Z :=
  match rows with
  | [] => []
  | r :: rows' => rule prev r :: scan_rule rule r rows'
  end.

(** Row 0 keeps the initial 0; every later row is the rule applied to the
    row before it and to itself. *)
Definition signals_of {R : Type} (rule : R -> R -> Z) (rows : list R)
  : list Z :=
  match rows with
  | [] => []
  | r :: rows' => 0 :: scan_rule rule r rows'
  end.

Definition macd_rule (prev cur : Q * Q) : Z :=
  macd_cross (fst prev) (snd prev) (fst cur) (snd cur).

Definition boll_rule (prev cur : Q * (Q * Q)) : Z :=
  boll_cross (fst prev) (fst (snd prev)) (snd (snd prev))
             (fst cur) (fst (snd cur)) (snd (snd cur)).

(** ** More example tables *)

(** No buy signal after bar 0; a zero and a negative close. *)
Definition flat_data : list Bar :=
  bars_of [10; 0; -5]%Q [1; 0; -1].

(** A buy signal on a zero close. *)
Definition zero_close_data : list Bar :=
  bars_of [10; 0]%Q [0; 1].

Definition dif_example : list Q := [-1; 1; 2; -1; 3]%Q.
Definition dea_example : list Q := [0; 0; 0; 0; 0]%Q.

Definition boll_closes_example : list Q := [9; 11; 13; 12]%Q.
Definition boll_lower_example : list Q := [10; 10; 10; 10]%Q.
Definition boll_upper_example : list Q := [12; 12; 12; 12]%Q.

(** A power function to run the report with. *)
Definition pow_example (x y : Q) : Q := x.

Definition macd_rows_example : list (Z * Q) :=
  [(0, 10%Q); (1, 9%Q); (2, 8%Q); (3, 12%Q); (4, 15%Q)].

(** * Proofs *)

Lemma loop_body_unfold (data : list Bar) (i : nat) (s : Frame)
    (bar : Bar) (c : Q) (p : Z) :
  well_formed (length data) s ->
  (1 <= i)%nat ->
  data !! i = Some bar ->
  cash s !! (i - 1)%nat = Some c ->
  position s !! (i - 1)%nat = Some p ->
  loop_body data i s =
    (x ← step_row bar (current_position s) c p; Ok (commit i bar s x)).
Proof.
  intros (Hc & Hp & Hv & Ht) Hi Hbar Hcash Hpos.
  assert (Hlt : (i < length data)%nat) by (eapply lookup_lt_Some; eauto).
  unfold loop_body, step_row, commit.
  unfold_result.
  rewrite Hcash, Hpos, Hbar.
  assert (Hi1 : (i < length (cash s))%nat) by lia.
  assert (Hi2 : (i < length (position s))%nat) by lia.
  assert (Hi3 : (i < length (position_value s))%nat) by lia.
  assert (Hi4 : (i < length (total_assets s))%nat) by lia.
  repeat (rewrite ?decide_True by (rewrite ?length_insert; assumption); simpl).
  rewrite !list_lookup_insert_eq by assumption.
  destruct (_ && _); simpl.
  - destruct (py_int_div c (close bar)) as [n|e]; simpl; [|reflexivity].
    destruct (n >? 0); simpl; settle_rows; reflexivity.
  - destruct (_ && _); simpl.
    + destruct (p >? 0); simpl; settle_rows; reflexivity.
    + settle_rows.
  reflexivity.
Qed.

Lemma for_range_app {S : Type} (body : nat -> S -> result S)
    (rows1 rows2 : list nat) (s : S) :
  for_range body (rows1 ++ rows2) s =
    (s' ← for_range body rows1 s; for_range body rows2 s').
Proof.
  revert s. induction rows1 as [|i rows1 IH]; intros s; simpl; [reflexivity|].
  unfold_result. destruct (body i s); [apply IH | reflexivity].
Qed.

Lemma backtest_upto_S (cap : Q) (data : list Bar) (k : nat) :
  backtest_upto cap data (S k) =
    (s ← backtest_upto cap data k; loop_body data (S k) s).
Proof.
  unfold backtest_upto. rewrite seq_S, for_range_app. simpl.
  unfold_result. destruct (for_range _ _ _); [|reflexivity].
  destruct (loop_body _ _ _); reflexivity.
Qed.

Lemma py_int_div_ok (a p : Q) :
  (0 < p)%Q -> py_int_div a p = Ok (py_int (a / p)).
Proof.
  intros Hp. unfold py_int_div.
  destruct (Qeq_bool p 0) eqn:E; [|reflexivity].
  apply Qeq_bool_eq in E. rewrite E in Hp. exfalso. revert Hp. apply Qlt_irrefl.
Qed.

Lemma step_row_ok (bar : Bar) (cp : Z) (c : Q) (p : Z) :
  (0 < close bar)%Q -> exists x, step_row bar cp c p = Ok x.
Proof.
  intros Hp. unfold step_row. rewrite py_int_div_ok by assumption.
  unfold_result.
  repeat match goal with
         | |- context [if ?b then _ else _] => destruct b
         end; eauto.
Qed.

Lemma step_row_flat_or_long (bar : Bar) (cp : Z) (c : Q) (p : Z)
    (c' : Q) (p' cp' : Z) :
  step_row bar cp c p = Ok (c', p', cp') ->
  flat_or_long cp p -> flat_or_long cp' p'.
Proof.
  unfold step_row, flat_or_long. unfold_result. intros H Hcp.
  destruct (_ && _).
  - destruct (py_int_div c (close bar)) as [n|]; [|discriminate].
    destruct (n >? 0) eqn:E; inversion H; subst; [right; lia | assumption].
  - destruct (_ && _).
    + destruct (p >? 0) eqn:E; inversion H; subst; [left; lia | assumption].
    + inversion H; subst; assumption.
Qed.

Lemma commit_well_formed (n i : nat) (bar : Bar) (s : Frame) (x : Q * Z * Z) :
  well_formed n s -> well_formed n (commit i bar s x).
Proof.
  destruct x as [[c p] cp]. unfold well_formed, commit; simpl.
  rewrite !length_insert. tauto.
Qed.

Lemma backtest_init_inv (cap : Q) (data : list Bar) :
  (0 < length data)%nat ->
  state_inv (length data) 0 (backtest_init cap data).
Proof.
  intros Hn. split.
  - unfold well_formed, backtest_init; simpl. rewrite !length_replicate. tauto.
  - exists 0. split; [|left; split; reflexivity].
    unfold backtest_init; simpl. apply lookup_replicate_2. assumption.
Qed.

(** One row of progress: the table after row [S k] is the table after row
    [k] with the transition committed at row [S k]. *)
Lemma backtest_upto_step (cap : Q) (data : list Bar) (k : nat) (s : Frame)
    (bar : Bar) :
  positive_closes data ->
  backtest_upto cap data k = Ok s ->
  state_inv (length data) k s ->
  data !! S k = Some bar ->
  exists c p x,
    cash s !! k = Some c /\ position s !! k = Some p /\
    flat_or_long (current_position s) p /\
    step_row bar (current_position s) c p = Ok x /\
    backtest_upto cap data (S k) = Ok (commit (S k) bar s x) /\
    state_inv (length data) (S k) (commit (S k) bar s x).
Proof.
  intros Hpos Hrun [Hwf (p & Hp & Hfl)] Hbar.
  assert (Hk : (S k < length data)%nat) by (eapply lookup_lt_Some; eauto).
  assert (is_Some (cash s !! k)) as [c Hc].
  { apply lookup_lt_is_Some_2. destruct Hwf as (-> & _). lia. }
  destruct (step_row_ok bar (current_position s) c p) as [x Hx].
  { apply Hpos. eapply list_elem_of_lookup_2; eauto. }
  exists c, p, x.
  split; [assumption|]. split; [assumption|]. split; [assumption|].
  split; [assumption|]. split.
  - rewrite backtest_upto_S, Hrun. simpl.
    rewrite (loop_body_unfold data (S k) s bar c p); try assumption; try lia.
    + rewrite Hx. reflexivity.
    + simpl. rewrite Nat.sub_0_r. assumption.
    + simpl. rewrite Nat.sub_0_r. assumption.
  - split; [apply commit_well_formed; assumption|].
    destruct x as [[c' p'] cp']. exists p'. split.
    + simpl. apply list_lookup_insert_eq. destruct Hwf as (_ & -> & _). lia.
    + simpl. eapply step_row_flat_or_long; eauto.
Qed.

Lemma backtest_upto_inv (cap : Q) (data : list Bar) (k : nat) :
  positive_closes data ->
  (k < length data)%nat ->
  exists s, backtest_upto cap data k = Ok s /\ state_inv (length data) k s.
Proof.
  intros Hpos. induction k as [|k IH]; intros Hk.
  - exists (backtest_init cap data). split; [reflexivity|].
    apply backtest_init_inv. assumption.
  - destruct IH as (s & Hs & Hinv); [lia|].
    destruct (lookup_lt_is_Some_2 data (S k) Hk) as [bar Hbar].
    destruct (backtest_upto_step cap data k s bar Hpos Hs Hinv Hbar)
      as (c & p & x & _ & _ & _ & _ & Hrun & Hinv').
    eauto.
Qed.

Lemma row_of_commit_ne (i j : nat) (bar : Bar) (s : Frame) (x : Q * Z * Z) :
  i <> j -> row_of (commit i bar s x) j = row_of s j.
Proof.
  intros Hij. destruct x as [[c p] cp]. unfold row_of, commit; simpl.
  rewrite !list_lookup_insert_ne by assumption. reflexivity.
Qed.

Lemma row_of_commit_eq (n i : nat) (bar : Bar) (s : Frame) (c : Q) (p cp : Z) :
  well_formed n s -> (i < n)%nat ->
  row_of (commit i bar s (c, p, cp)) i =
    (Some c, Some p, Some (inject_Z p * close bar)%Q,
     Some (c + inject_Z p * close bar)%Q).
Proof.
  intros (H1 & H2 & H3 & H4) Hi. unfold row_of, commit; simpl.
  rewrite !list_lookup_insert_eq by lia. reflexivity.
Qed.

(** Rows already processed are never written again. *)
Lemma backtest_upto_stable (cap : Q) (data : list Bar) (k k' : nat)
    (s s' : Frame) :
  positive_closes data ->
  (k <= k')%nat -> (k' < length data)%nat ->
  backtest_upto cap data k = Ok s ->
  backtest_upto cap data k' = Ok s' ->
  forall j, (j <= k)%nat -> row_of s' j = row_of s j.
Proof.
  intros Hpos Hkk'. revert s'.
  induction Hkk' as [|k' Hle IH]; intros s' Hk' Hs Hs' j Hj.
  - rewrite Hs in Hs'. inversion Hs'. reflexivity.
  - destruct (backtest_upto_inv cap data k' Hpos) as (s0 & Hs0 & Hinv); [lia|].
    assert (is_Some (data !! S k')) as [bar Hbar]
      by (apply lookup_lt_is_Some_2; assumption).
    destruct (backtest_upto_step cap data k' s0 bar Hpos Hs0 Hinv Hbar)
      as (c & p & x & _ & _ & _ & _ & Hrun & _).
    rewrite Hrun in Hs'. inversion Hs'; subst s'.
    rewrite row_of_commit_ne by lia.
    apply IH; [lia | assumption | assumption | assumption].
Qed.

(** With positive closes the loop raises nothing, and the final table keeps
    every row as it was when the loop left it. *)
Lemma backtest_timeline_rows (cap : Q) (data : list Bar) :
  positive_closes data ->
  exists f,
    backtest_timeline cap data = Ok f /\
    well_formed (length data) f /\
    forall k s, (k < length data)%nat ->
      backtest_upto cap data k = Ok s ->
      forall j, (j <= k)%nat -> row_of f j = row_of s j.
Proof.
  intros Hpos. unfold backtest_timeline.
  destruct (length data) as [|n] eqn:Hn.
  - exists (backtest_init cap data). split; [reflexivity|]. split.
    + unfold well_formed, backtest_init; simpl.
      rewrite Hn. simpl. tauto.
    + intros k s Hk. lia.
  - simpl. rewrite Nat.sub_0_r.
    destruct (backtest_upto_inv cap data n Hpos) as (f & Hf & Hwf & _); [lia|].
    exists f. split; [assumption|]. split; [rewrite <- Hn; assumption|].
    intros k s Hk Hs j Hj.
    apply (backtest_upto_stable cap data k n s f); try assumption; lia.
Qed.

Lemma backtest_timeline_row_0 (cap : Q) (data : list Bar) (f : Frame) :
  positive_closes data ->
  (0 < length data)%nat ->
  backtest_timeline cap data = Ok f ->
  row_of f 0 = (Some cap, Some 0, Some 0%Q, Some cap).
Proof.
  intros Hpos Hn Hf.
  destruct (backtest_timeline_rows cap data Hpos) as (f' & Hf' & _ & Hrows).
  rewrite Hf in Hf'. inversion Hf'; subst f'.
  rewrite (Hrows 0%nat (backtest_init cap data) Hn eq_refl 0%nat) by lia.
  unfold row_of, backtest_init; simpl.
  rewrite !lookup_replicate_2 by assumption. reflexivity.
Qed.

(** Row [S k] of the final table is the transition of row [k]. *)
Lemma backtest_timeline_row_S (cap : Q) (data : list Bar) (f : Frame)
    (k : nat) (bar : Bar) :
  positive_closes data ->
  backtest_timeline cap data = Ok f ->
  data !! S k = Some bar ->
  exists s c p c' p' cp',
    backtest_upto cap data k = Ok s /\
    flat_or_long (current_position s) p /\
    cash f !! k = Some c /\ position f !! k = Some p /\
    step_row bar (current_position s) c p = Ok (c', p', cp') /\
    backtest_upto cap data (S k) = Ok (commit (S k) bar s (c', p', cp')) /\
    row_of f (S k) =
      (Some c', Some p', Some (inject_Z p' * close bar)%Q,
       Some (c' + inject_Z p' * close bar)%Q).
Proof.
  intros Hpos Hf Hbar.
  assert (Hk : (S k < length data)%nat) by (eapply lookup_lt_Some; eauto).
  destruct (backtest_timeline_rows cap data Hpos) as (f' & Hf' & _ & Hrows).
  rewrite Hf in Hf'. inversion Hf'; subst f'.
  destruct (backtest_upto_inv cap data k Hpos) as (s & Hs & Hinv); [lia|].
  destruct (backtest_upto_step cap data k s bar Hpos Hs Hinv Hbar)
    as (c & p & [[c' p'] cp'] & Hc & Hp & Hfl & Hx & Hrun & Hwf' & _).
  exists s, c, p, c', p', cp'.
  pose proof (Hrows k s ltac:(lia) Hs k ltac:(lia)) as Hrow.
  unfold row_of in Hrow. inversion Hrow as [[E1 E2 E3 E4]].
  split; [assumption|]. split; [assumption|].
  split; [congruence|]. split; [congruence|].
  split; [assumption|]. split; [assumption|].
  rewrite (Hrows (S k) _ Hk Hrun (S k)) by lia.
  destruct Hinv as [Hwf _].
  apply (row_of_commit_eq (length data)); assumption.
Qed.

(** ** Share sizing *)

Lemma py_int_floor (q : Q) : (0 <= q)%Q -> py_int q = Qfloor q.
Proof.
  destruct q as [n d]. unfold Qle, py_int, Qfloor; simpl. intros H.
  apply Z.quot_div_nonneg; lia.
Qed.

Lemma Qdiv_nonneg (a p : Q) : (0 <= a)%Q -> (0 < p)%Q -> (0 <= a / p)%Q.
Proof.
  intros Ha Hp. unfold Qdiv. apply Qmult_le_0_compat; [assumption|].
  apply Qlt_le_weak, Qinv_lt_0_compat. assumption.
Qed.

Lemma floor_cost_le (a p : Q) :
  (0 < p)%Q -> (inject_Z (Qfloor (a / p)) * p <= a)%Q.
Proof.
  intros Hp.
  assert (Hne : ~ (p == 0)%Q) by (intros E; rewrite E in Hp; inversion Hp).
  rewrite <- (Qmult_div_r a p Hne) at 2.
  rewrite (Qmult_comm p).
  apply Qmult_le_compat_r; [apply Qfloor_le | apply Qlt_le_weak; assumption].
Qed.


Lemma step_row_cash_nonneg (bar : Bar) (cp : Z) (c : Q) (p : Z)
    (c' : Q) (p' cp' : Z) :
  (0 < close bar)%Q -> (0 <= c)%Q ->
  step_row bar cp c p = Ok (c', p', cp') -> (0 <= c')%Q.
Proof.
  intros Hp Hc. unfold step_row. rewrite py_int_div_ok by assumption.
  unfold_result.
  rewrite py_int_floor by (apply Qdiv_nonneg; assumption).
  pose proof (floor_cost_le c (close bar) Hp) as Hcost.
  generalize dependent (Qfloor (c / close bar)). intros n Hcost.
  destruct (_ && _).
  - destruct (n >? 0); intros [= <- <- <-]; [|assumption].
    generalize dependent (inject_Z n * close bar)%Q. intros cost Hcost. lra.
  - destruct (_ && _); [|intros [= <- <- <-]; assumption].
    destruct (p >? 0) eqn:E; intros [= <- <- <-]; [|assumption].
    assert (0 <= inject_Z p * close bar)%Q as Hrev.
    { apply Qmult_le_0_compat; [|apply Qlt_le_weak; assumption].
      change 0%Q with (inject_Z 0). rewrite <- Zle_Qle. lia. }
    generalize dependent (inject_Z p * close bar)%Q. intros revenue Hrev. lra.
Qed.

Lemma positive_closes_forallb (data : list Bar) :
  forallb (fun bar => negb (Qle_bool (close bar) 0)) data = true ->
  positive_closes data.
Proof.
  intros H bar Hin. rewrite forallb_forall in H.
  apply list_elem_of_In in Hin. specialize (H bar Hin).
  apply negb_true_iff in H. apply Qnot_le_lt. intros Hle.
  apply Qle_bool_iff in Hle. congruence.
Qed.

(** ** The timeline *)

(** C1: for a price series with positive closes and its aligned signals, the
    backtest raises nothing and every bar [i] of its timeline satisfies
    position_value = shares_held * close and
    total_equity = cash + shares_held * close; bar 0 holds
    total_equity = initial_capital and shares_held = 0. *)
Theorem accounting_identity (initial_capital : Q) (data : list Bar) :
  positive_closes data ->
  exists f,
    backtest_timeline initial_capital data = Ok f /\
    (forall i bar, data !! i = Some bar ->
       exists c p v e,
         cash f !! i = Some c /\ position f !! i = Some p /\
         position_value f !! i = Some v /\ total_assets f !! i = Some e /\
         (v == inject_Z p * close bar)%Q /\
         (e == c + inject_Z p * close bar)%Q) /\
    (data <> [] ->
       total_assets f !! 0%nat = Some initial_capital /\
       position f !! 0%nat = Some 0).
Proof.
  intros Hpos.
  destruct (backtest_timeline_rows initial_capital data Hpos)
    as (f & Hf & _ & _).
  exists f. split; [assumption|]. split.
  - intros [|k] bar Hbar.
    + assert (Hn : (0 < length data)%nat) by (eapply lookup_lt_Some; eauto).
      pose proof (backtest_timeline_row_0 _ _ _ Hpos Hn Hf) as H0.
      unfold row_of in H0. injection H0 as E1 E2 E3 E4.
      exists initial_capital, 0, 0%Q, initial_capital.
      repeat (split; [assumption|]). split; ring.
    + destruct (backtest_timeline_row_S _ _ _ _ _ Hpos Hf Hbar)
        as (s & c & p & c' & p' & cp' & _ & _ & _ & _ & _ & _ & Hrow).
      unfold row_of in Hrow. injection Hrow as E1 E2 E3 E4.
      exists c', p', (inject_Z p' * close bar)%Q,
        (c' + inject_Z p' * close bar)%Q.
      repeat (split; [assumption|]). split; reflexivity.
  - intros Hne.
    assert (Hn : (0 < length data)%nat) by (destruct data; simpl; [congruence|lia]).
    pose proof (backtest_timeline_row_0 _ _ _ Hpos Hn Hf) as H0.
    unfold row_of in H0. injection H0 as E1 E2 E3 E4. split; assumption.
Qed.



(** ** Transitions *)



Lemma step_row_hold (bar : Bar) (cp : Z) (c : Q) (p : Z) :
  (signal bar <> 1 /\ signal bar <> -1) \/
  (signal bar = 1 /\ cp = 1) \/
  (signal bar = -1 /\ cp = 0) ->
  step_row bar cp c p = Ok (c, p, cp).
Proof.
  intros H. unfold step_row.
  destruct (signal bar =? 1) eqn:E1, (cp =? 0) eqn:E2,
    (signal bar =? -1) eqn:E3, (cp =? 1) eqn:E4; simpl; try reflexivity; lia.
Qed.



(** C5: prices 10, 9, 8, 12, 15 with signals 0, 0, +1, 0, -1 and an initial
    capital of 100: 12 shares are bought at bar 2 leaving cash 4, carried
    into bars 3 and 4, and sold at bar 4 for cash 184; the final equity is 184 and the
    total return 84 percent; the pairing yields the single record bought at
    8 and sold at 15, with return 87.5 percent, counted as a win. *)
Theorem example_scenario (float_pow : Q -> Q -> Q) :
  exists f perf pr r s3,
    backtest float_pow 100 example_data = Ok (f, perf) /\
    backtest_upto 100 example_data 3 = Ok s3 /\
    position s3 !! 3%nat = Some 12 /\ current_position s3 = 1 /\
    position f = [0; 0; 12; 12; 0] /\
    Forall2 Qeq (cash f) [100; 100; 4; 4; 184]%Q /\
    Forall2 Qeq (total_assets f) [100; 100; 100; 148; 184]%Q /\
    (perf_final_capital perf == 184)%Q /\
    (total_return perf == 84)%Q /\
    pair_trades example_data = Ok pr /\
    trade_records pr = [r] /\
    buy_price r = 8%Q /\ sell_price r = 15%Q /\
    (profit_pct r == 175 # 2)%Q /\
    profitable_trades pr = 1%nat.
Proof.
  eexists _, _, _, _, _.
  split; [vm_compute; reflexivity|].
  split; [vm_compute; reflexivity|].
  split; [reflexivity|]. split; [reflexivity|].
  split; [reflexivity|].
  split; [repeat constructor|].
  split; [repeat constructor|].
  split; [reflexivity|].
  split; [reflexivity|].
  split; [vm_compute; reflexivity|].
  split; [reflexivity|].
  repeat split.
Qed.

(** C8, evaluated: on a series of one bar the first and the last date
    coincide, the elapsed days are 0, and the performance report raises
    ZeroDivisionError at [365 / days]. *)
Theorem annual_return_single_bar_raises (float_pow : Q -> Q -> Q)
    (initial_capital : Q) (bar : Bar) :
  backtest_timeline initial_capital [bar]
    = Ok (backtest_init initial_capital [bar]) /\
  calculate_performance float_pow initial_capital [bar]
    (backtest_init initial_capital [bar]) = Raise ZeroDivisionError /\
  backtest float_pow initial_capital [bar] = Raise ZeroDivisionError.
Proof.
  assert (H : calculate_performance float_pow initial_capital [bar]
                (backtest_init initial_capital [bar]) = Raise ZeroDivisionError).
  { unfold calculate_performance, iloc_last; simpl.
    unfold_result; simpl. rewrite Z.sub_diag. reflexivity. }
  split; [reflexivity|]. split; [exact H|].
  unfold backtest. change (backtest_timeline initial_capital [bar])
    with (Ok (backtest_init initial_capital [bar])).
  unfold_result. unfold_result. rewrite H. reflexivity.
Qed.

(** ** The pairing loop *)

Lemma count_wins_app (l1 l2 : list TradeRecord) :
  count_wins (l1 ++ l2) = (count_wins l1 + count_wins l2)%nat.
Proof.
  induction l1 as [|r l1 IH]; simpl; [reflexivity|].
  destruct (Qlt_le_dec _ _); simpl; rewrite IH; reflexivity.
Qed.

Lemma count_wins_le (l : list TradeRecord) : (count_wins l <= length l)%nat.
Proof.
  induction l as [|r l IH]; simpl; [lia|].
  destruct (Qlt_le_dec _ _); lia.
Qed.

Lemma adjacent_pairs_short (rows : list Bar) :
  (length rows <= 1)%nat -> adjacent_pairs rows = [].
Proof. destruct rows as [|b [|n rest]]; simpl; [reflexivity..|lia]. Qed.

(** The loop, started at row [i] with enough passes left, appends the
    adjacent pairs of the remaining rows and stops past the last pair. *)
Lemma pair_while_adjacent (rows : list Bar) (fuel : nat) (s : Pairing) :
  (length rows - pair_i s <= fuel)%nat ->
  exists i',
    pair_while fuel rows s =
      Ok {| pair_i := i';
            profitable_trades :=
              profitable_trades s
              + count_wins (adjacent_pairs (drop (pair_i s) rows));
            trade_records :=
              trade_records s ++ adjacent_pairs (drop (pair_i s) rows) |} /\
    Z.of_nat (length rows) - 1 <= Z.of_nat i'.
Proof.
  revert s. induction fuel as [|fuel IH]; intros [i w recs] Hfuel;
    simpl in Hfuel; simpl.
  - exists i. rewrite adjacent_pairs_short by (rewrite length_drop; lia).
    simpl. rewrite Nat.add_0_r, app_nil_r. split; [reflexivity | lia].
  - case_decide as Hguard.
    + assert (is_Some (rows !! i)) as [b Hb]
        by (apply lookup_lt_is_Some_2; lia).
      assert (is_Some (rows !! (i + 1)%nat)) as [n Hn]
        by (apply lookup_lt_is_Some_2; lia).
      assert (Hdrop : drop i rows = b :: n :: drop (i + 2) rows).
      { rewrite (drop_S rows b i Hb). f_equal.
        replace (S i) with (i + 1)%nat by lia.
        rewrite (drop_S rows n (i + 1) Hn). f_equal. f_equal. lia. }
      unfold pair_body. unfold_result. simpl. rewrite Hb, Hn.
      rewrite Hdrop. simpl.
      destruct ((signal b =? 1) && (signal n =? -1)) eqn:E.
      * edestruct (IH {| pair_i := i + 2;
                         profitable_trades :=
                           if Qlt_le_dec (close b) (close n)
                           then w + 1 else w;
                         trade_records := recs ++ [trade_record b n] |})%nat
          as (i' & Hrun & Hexit); [simpl; lia|].
        exists i'. rewrite Hrun. simpl. split; [|assumption].
        f_equal. f_equal.
        -- destruct (Qlt_le_dec (close b) (close n)); lia.
        -- rewrite <- app_assoc. reflexivity.
      * edestruct (IH {| pair_i := i + 1; profitable_trades := w;
                         trade_records := recs |})%nat
          as (i' & Hrun & Hexit); [simpl; lia|].
        exists i'. rewrite Hrun. simpl. split; [|assumption].
        replace (drop (i + 1) rows) with (n :: drop (i + 2) rows).
        -- reflexivity.
        -- rewrite (drop_S rows n (i + 1) Hn). f_equal. f_equal. lia.
    + exists i. rewrite adjacent_pairs_short by (rewrite length_drop; lia).
      simpl. rewrite Nat.add_0_r, app_nil_r. split; [reflexivity | lia].
Qed.

(** The loop of [main] raises nothing, runs to its exit, and leaves the
    adjacent pairs of the sorted non-zero signals and their wins. *)
Lemma pair_trades_adjacent (data : list Bar) :
  exists i',
    pair_trades data =
      Ok {| pair_i := i';
            profitable_trades :=
              count_wins (adjacent_pairs (sort_index (nonzero_signals data)));
            trade_records :=
              adjacent_pairs (sort_index (nonzero_signals data)) |} /\
    Z.of_nat (length (sort_index (nonzero_signals data))) - 1 <= Z.of_nat i'.
Proof.
  unfold pair_trades.
  destruct (pair_while_adjacent (sort_index (nonzero_signals data))
              (length (sort_index (nonzero_signals data)))
              {| pair_i := 0; profitable_trades := 0; trade_records := [] |})
    as (i' & Hrun & Hexit); [simpl; lia|].
  exists i'. split; [|assumption]. rewrite Hrun. reflexivity.
Qed.

Lemma adjacent_pairs_cons (b n : Bar) (rest : list Bar) :
  adjacent_pairs (b :: n :: rest) =
    if (signal b =? 1) && (signal n =? -1)
    then trade_record b n :: adjacent_pairs rest
    else adjacent_pairs (n :: rest).
Proof. reflexivity. Qed.

(** The records are exactly those of the +1 rows directly followed by a -1
    row: two such pairs never overlap, so the loop misses none. *)
Lemma adjacent_pairs_elem (rows : list Bar) (r : TradeRecord) :
  r ∈ adjacent_pairs rows <->
  exists b n, adjacent_in rows b n /\
    signal b = 1 /\ signal n = -1 /\ r = trade_record b n.
Proof.
  remember (length rows) as len eqn:Hlen.
  revert rows Hlen.
  induction len as [len IH] using lt_wf_ind. intros rows Hlen.
  destruct rows as [|b [|n rest]].
  - split; [intros H; inversion H|].
    intros (b & n & ([|? ?] & after & Heq) & _); discriminate.
  - split; [intros H; inversion H|].
    intros (b0 & n & ([|? [|? ?]] & after & Heq) & _); discriminate.
  - rewrite adjacent_pairs_cons.
    destruct ((signal b =? 1) && (signal n =? -1)) eqn:E.
    + apply andb_true_iff in E as [Eb En].
      apply Z.eqb_eq in Eb, En.
      rewrite elem_of_cons.
      rewrite (IH (length rest)) by (subst len; simpl; lia || reflexivity).
      split.
      * intros [->|(b0 & n0 & (before & after & Heq) & Hb0 & Hn0 & Hr)].
        -- exists b, n. split; [exists [], rest; reflexivity|]. auto.
        -- exists b0, n0. split; [|auto].
           exists (b :: n :: before), after. rewrite Heq. reflexivity.
      * intros (b0 & n0 & (before & after & Heq) & Hb0 & Hn0 & Hr).
        destruct before as [|x [|y before]]; simpl in Heq;
          injection Heq as -> -> ->.
        -- left. assumption.
        -- lia.
        -- right.
           exists b0, n0. split; [exists before, after; reflexivity | auto].
    + rewrite (IH (length (n :: rest))) by (subst len; simpl; lia || reflexivity).
      split.
      * intros (b0 & n0 & (before & after & Heq) & Hb0 & Hn0 & Hr).
        exists b0, n0. split; [|auto].
        exists (b :: before), after. rewrite Heq. reflexivity.
      * intros (b0 & n0 & (before & after & Heq) & Hb0 & Hn0 & Hr).
        destruct before as [|x before]; simpl in Heq.
        -- injection Heq as -> -> ->.
           rewrite Hb0, Hn0 in E. discriminate.
        -- injection Heq as -> Heq. exists b0, n0. split; [exists before, after; assumption | auto].
Qed.

(** C7, refuted as worded: on the signals +1, +1, -1 the specification's
    pairing (first +1, next -1 after it) buys at 8, the price of the first
    +1, while the code buys at 9, the price of the second. *)
Lemma pairing_skips_first_buy :
  exists pr,
    pair_trades repeated_buy_data = Ok pr /\
    buy_price <$> trade_records pr = [9%Q] /\
    buy_price <$> first_buy_next_sell None
                    (sort_index (nonzero_signals repeated_buy_data)) = [8%Q] /\
    trade_records pr <>
      first_buy_next_sell None (sort_index (nonzero_signals repeated_buy_data)).
Proof.
  eexists. split; [vm_compute; reflexivity|].
  split; [reflexivity|]. split; [reflexivity|].
  vm_compute. intros H. discriminate H.
Qed.

(** C7, amended: the loop raises nothing; its records are exactly the
    records of the rows with signal +1 that are directly followed, in the
    date-sorted sequence of non-zero signals, by a row with signal -1 (a +1
    followed by another +1, or last in the sequence, is left unpaired); each
    record carries return_pct = (sell_price - buy_price) / buy_price * 100,
    and the wins counted are the records with sell_price > buy_price. *)
Theorem pairing_adjacent_signals (data : list Bar) :
  exists pr,
    pair_trades data = Ok pr /\
    (forall r, r ∈ trade_records pr <->
       exists b n,
         adjacent_in (sort_index (nonzero_signals data)) b n /\
         signal b = 1 /\ signal n = -1 /\ r = trade_record b n) /\
    (forall r, r ∈ trade_records pr ->
       (profit_pct r ==
          (sell_price r - buy_price r) / buy_price r * 100)%Q) /\
    profitable_trades pr = count_wins (trade_records pr).
Proof.
  destruct (pair_trades_adjacent data) as (i' & Hrun & _).
  eexists. split; [exact Hrun|]. simpl. split; [|split].
  - intros r. apply adjacent_pairs_elem.
  - intros r Hr. apply adjacent_pairs_elem in Hr
      as (b & n & _ & _ & _ & ->). reflexivity.
  - reflexivity.
Qed.

(** C9: the pairing raises nothing, also with no completed pair; the win
    rate is wins / max(1, pairs) * 100, it is 0 when there is no pair, and
    it lies between 0 and 100. *)
Theorem win_rate_bounds (data : list Bar) :
  exists pr,
    pair_trades data = Ok pr /\
    (win_rate pr ==
       inject_Z (Z.of_nat (profitable_trades pr))
       / inject_Z (Z.max 1 (Z.of_nat (length (trade_records pr)))) * 100)%Q /\
    (trade_records pr = [] -> (win_rate pr == 0)%Q) /\
    (0 <= win_rate pr)%Q /\ (win_rate pr <= 100)%Q.
Proof.
  destruct (pair_trades_adjacent data) as (i' & Hrun & _).
  eexists. split; [exact Hrun|].
  split; [reflexivity|].
  unfold win_rate; simpl.
  set (recs := adjacent_pairs (sort_index (nonzero_signals data))).
  pose proof (count_wins_le recs) as Hle.
  split; [intros ->; reflexivity|].
  set (w := inject_Z (Z.of_nat (count_wins recs))).
  set (m := inject_Z (Z.max 1 (Z.of_nat (length recs)))).
  assert (Hw : (0 <= w)%Q).
  { unfold w. change 0%Q with (inject_Z 0). rewrite <- Zle_Qle. lia. }
  assert (Hm : (0 < m)%Q).
  { unfold m. change 0%Q with (inject_Z 0). rewrite <- Zlt_Qlt. lia. }
  assert (Hwm : (w <= m)%Q).
  { unfold w, m. rewrite <- Zle_Qle. lia. }
  assert (H0 : (0 <= w / m)%Q) by (apply Qdiv_nonneg; assumption).
  assert (H1 : (w / m <= 1)%Q).
  { apply Qle_shift_div_r; [assumption|]. rewrite Qmult_1_l. assumption. }
  generalize dependent (w / m)%Q. intros x H0 H1. split; lra.
Qed.

(** ** Dates *)

Lemma increasing_dates_sublist (l1 l2 : list Bar) :
  l1 `sublist_of` l2 -> increasing_dates l2 -> increasing_dates l1.
Proof.
  unfold increasing_dates.
  induction 1 as [|x l1 l2 Hsub IH|x l1 l2 Hsub IH]; intros Hs.
  - constructor.
  - apply StronglySorted_inv in Hs as [Hs Hall]. constructor; [auto|].
    rewrite Forall_forall in *. intros y Hy. apply Hall.
    eapply sublist_subseteq; eauto.
  - apply StronglySorted_inv in Hs as [Hs _]. auto.
Qed.

Lemma sort_index_increasing (rows : list Bar) :
  increasing_dates rows -> sort_index rows = rows.
Proof.
  unfold increasing_dates, sort_index.
  induction 1 as [|x rows Hs IH Hall]; simpl; [reflexivity|].
  rewrite IH. destruct rows as [|y rows]; simpl; [reflexivity|].
  apply Forall_cons in Hall as [Hxy _].
  destruct (date x <=? date y) eqn:E; [reflexivity | lia].
Qed.

Lemma adjacent_in_sublist (rows data : list Bar) (b n : Bar) :
  rows `sublist_of` data -> adjacent_in rows b n ->
  exists l1 l2 l3, data = l1 ++ b :: l2 ++ n :: l3.
Proof.
  intros Hsub (before & after & ->).
  apply sublist_app_cons_l in Hsub as (l1 & k & -> & _ & Hsub).
  apply sublist_cons_l in Hsub as (l2 & l3 & -> & _).
  eauto.
Qed.

(** C10: on a series with strictly increasing dates, every record of the
    pairing is built from a row with signal +1 and a row with signal -1 of
    the series, the buy row strictly before the sell row, and its buy date
    is strictly earlier than its sell date. *)
Theorem trade_record_order (data : list Bar) :
  increasing_dates data ->
  exists pr,
    pair_trades data = Ok pr /\
    forall r, r ∈ trade_records pr ->
      exists i j b n,
        (i < j)%nat /\ data !! i = Some b /\ data !! j = Some n /\
        signal b = 1 /\ signal n = -1 /\
        r = trade_record b n /\ buy_date r < sell_date r.
Proof.
  intros Hinc.
  destruct (pair_trades_adjacent data) as (i' & Hrun & _).
  eexists. split; [exact Hrun|]. simpl. intros r Hr.
  pose proof (sublist_filter (fun b => signal b ≠ 0) data) as Hsub.
  fold (nonzero_signals data) in Hsub.
  rewrite sort_index_increasing in Hr
    by (eapply increasing_dates_sublist; eauto).
  apply adjacent_pairs_elem in Hr as (b & n & Hadj & Hb & Hn & ->).
  destruct (adjacent_in_sublist _ _ _ _ Hsub Hadj) as (l1 & l2 & l3 & Hdata).
  exists (length l1), (length l1 + S (length l2))%nat, b, n.
  split; [lia|]. split.
  { rewrite Hdata. apply list_lookup_middle. reflexivity. }
  split.
  { rewrite Hdata. rewrite lookup_app_r by lia.
    replace (length l1 + S (length l2) - length l1)%nat
      with (S (length l2)) by lia.
    simpl. apply list_lookup_middle. reflexivity. }
  split; [assumption|]. split; [assumption|]. split; [reflexivity|].
  simpl. unfold increasing_dates in Hinc. rewrite Hdata in Hinc.
  apply StronglySorted_app_1_r, StronglySorted_inv in Hinc as [_ Hall].
  rewrite Forall_forall in Hall. apply Hall.
  apply elem_of_app. right. left.
Qed.

(** ** Drawdown *)

Lemma cummax_from_running (peak : Q) (col : list Q) (i : nat) :
  (i < length col)%nat ->
  cummax_from peak col !! i = Some (foldl Qmax peak (take (S i) col)).
Proof.
  revert peak i. induction col as [|x col IH]; intros peak i Hi; simpl in Hi.
  - lia.
  - destruct i as [|i]; simpl; [reflexivity|]. apply IH. lia.
Qed.

Lemma cummax_running_peak (total : list Q) (i : nat) :
  (i < length total)%nat -> cummax total !! i = running_peak total i.
Proof.
  destruct total as [|x total]; simpl; intros Hi; [lia|].
  unfold running_peak. simpl.
  destruct i as [|i]; simpl.
  - reflexivity.
  - apply cummax_from_running. lia.
Qed.

Lemma length_cummax_from (peak : Q) (col : list Q) :
  length (cummax_from peak col) = length col.
Proof.
  revert peak. induction col as [|x col IH]; intros peak; simpl;
    [reflexivity | rewrite IH; reflexivity].
Qed.

Lemma length_cummax (total : list Q) : length (cummax total) = length total.
Proof.
  destruct total; simpl; [reflexivity | rewrite length_cummax_from; reflexivity].
Qed.

Lemma omap_seq_lookup {A : Type} (g : nat -> option A) (l : list A) (a : nat) :
  (forall i x, l !! i = Some x -> g (a + i)%nat = Some x) ->
  omap g (seq a (length l)) = l.
Proof.
  revert a. induction l as [|y l IH]; intros a Hg; simpl; [reflexivity|].
  rewrite <- (Nat.add_0_r a) at 1. rewrite (Hg 0%nat y eq_refl).
  f_equal. apply IH. intros i x Hx.
  replace (S a + i)%nat with (a + S i)%nat by lia. apply Hg. assumption.
Qed.

(** The code's drawdown column is the column of the specification's
    drawdowns, bar by bar. *)
Lemma drawdown_refines (total : list Q) :
  omap (drawdown_at total) (seq 0 (length total)) =
    drawdown total (cummax total).
Proof.
  assert (Hlen : length (drawdown total (cummax total)) = length total).
  { unfold drawdown. rewrite length_zip_with, length_cummax. lia. }
  rewrite <- Hlen. apply omap_seq_lookup. intros i d Hd. simpl.
  unfold drawdown in Hd. apply lookup_zip_with_Some in Hd
    as (e & p & -> & He & Hp).
  unfold drawdown_at. rewrite He. simpl.
  rewrite <- cummax_running_peak by (eapply lookup_lt_Some; eauto).
  rewrite Hp. reflexivity.
Qed.

Lemma cummax_from_lookup (peak : Q) (col : list Q) (i : nat) (p : Q) :
  cummax_from peak col !! i = Some p ->
  (peak <= p)%Q /\
  (forall j e, (j <= i)%nat -> col !! j = Some e -> (e <= p)%Q) /\
  ((p == peak)%Q \/
   exists j e, (j <= i)%nat /\ col !! j = Some e /\ (p == e)%Q).
Proof.
  revert peak i. induction col as [|x col IH]; intros peak i; simpl;
    [intros H; inversion H|].
  destruct i as [|i]; simpl.
  - intros [= <-]. split; [apply Q.le_max_l|]. split.
    + intros j e Hj He. assert (j = 0)%nat by lia. subst j.
      simpl in He. injection He as <-. apply Q.le_max_r.
    + destruct (Q.max_dec peak x) as [E|E]; [left; assumption|].
      right. exists 0%nat, x. split; [lia|]. split; [reflexivity | assumption].
  - intros H. destruct (IH _ _ H) as (Hge & Hall & Hin).
    split; [eapply Qle_trans; [apply Q.le_max_l | exact Hge]|]. split.
    + intros [|j] e Hj He; simpl in He.
      * injection He as <-.
        eapply Qle_trans; [apply Q.le_max_r | exact Hge].
      * apply (Hall j); [lia | assumption].
    + destruct Hin as [E|(j & e & Hj & He & E)].
      * destruct (Q.max_dec peak x) as [E'|E'].
        -- left. rewrite E. assumption.
        -- right. exists 0%nat, x. split; [lia|].
           split; [reflexivity | rewrite E; assumption].
      * right. exists (S j), e. split; [lia|]. split; assumption.
Qed.

(** A running peak bounds every earlier equity and is one of them. *)
Lemma cummax_lookup (total : list Q) (i : nat) (p : Q) :
  cummax total !! i = Some p ->
  (forall j e, (j <= i)%nat -> total !! j = Some e -> (e <= p)%Q) /\
  (exists j e, (j <= i)%nat /\ total !! j = Some e /\ (p == e)%Q).
Proof.
  destruct total as [|x total]; simpl; [intros H; inversion H|].
  destruct i as [|i]; simpl.
  - intros [= <-]. split.
    + intros j e Hj He. assert (j = 0)%nat by lia. subst j.
      simpl in He. injection He as <-. apply Qle_refl.
    + exists 0%nat, x. split; [lia|]. split; reflexivity.
  - intros H. destruct (cummax_from_lookup _ _ _ _ H) as (Hge & Hall & Hin).
    split.
    + intros [|j] e Hj He; simpl in He.
      * injection He as <-. assumption.
      * apply (Hall j); [lia | assumption].
    + destruct Hin as [E|(j & e & Hj & He & E)].
      * exists 0%nat, x. split; [lia|]. split; [reflexivity | assumption].
      * exists (S j), e. split; [lia|]. split; assumption.
Qed.

Lemma foldl_Qmin_le (x : Q) (l : list Q) :
  (foldl Qmin x l <= x)%Q /\
  (forall y, y ∈ l -> (foldl Qmin x l <= y)%Q) /\
  ((foldl Qmin x l == x)%Q \/ exists y, y ∈ l /\ (foldl Qmin x l == y)%Q).
Proof.
  revert x. induction l as [|z l IH]; intros x; simpl.
  - split; [apply Qle_refl|]. split; [|left; reflexivity].
    intros y Hy. inversion Hy.
  - destruct (IH (Qmin x z)) as (Hx & Hall & Hin).
    split; [eapply Qle_trans; [exact Hx | apply Q.le_min_l]|]. split.
    + intros y Hy. apply elem_of_cons in Hy as [->|Hy].
      * eapply Qle_trans; [exact Hx | apply Q.le_min_r].
      * apply Hall. assumption.
    + destruct Hin as [E|(y & Hy & E)].
      * destruct (Q.min_dec x z) as [E'|E'].
        -- left. rewrite E. assumption.
        -- right. exists z. split; [left | rewrite E; assumption].
      * right. exists y. split; [right; assumption | assumption].
Qed.

Lemma series_min_spec (col : list Q) (m : Q) :
  series_min col = Some m ->
  (forall y, y ∈ col -> (m <= y)%Q) /\
  (exists y, y ∈ col /\ (m == y)%Q).
Proof.
  destruct col as [|x col]; simpl; [intros H; inversion H|].
  intros [= <-]. destruct (foldl_Qmin_le x col) as (Hx & Hall & Hin). split.
  - intros y Hy. apply elem_of_cons in Hy as [->|Hy]; auto.
  - destruct Hin as [E|(y & Hy & E)].
    + exists x. split; [left | assumption].
    + exists y. split; [right; assumption | assumption].
Qed.

Lemma drawdown_nonpos (e p : Q) :
  (0 < p)%Q -> (e <= p)%Q -> ((e - p) / p * 100 <= 0)%Q.
Proof.
  intros Hp He.
  assert (H : ((e - p) / p <= 0)%Q).
  { apply Qle_shift_div_r; [assumption | lra]. }
  generalize dependent ((e - p) / p)%Q. intros x Hx. lra.
Qed.

Lemma drawdown_zero (e p : Q) :
  (0 < p)%Q -> ((e - p) / p * 100 == 0)%Q <-> (e == p)%Q.
Proof.
  intros Hp.
  assert (Hne : ~ (p == 0)%Q) by (intros E; rewrite E in Hp; inversion Hp).
  split; intros H.
  - assert (E : (e - p == (e - p) / p * 100 * (p / 100))%Q) by (field; assumption).
    rewrite H in E. lra.
  - rewrite H. field. assumption.
Qed.

Lemma drawdown_elem (total : list Q) (d : Q) :
  d ∈ drawdown total (cummax total) <->
  exists i e p, total !! i = Some e /\ cummax total !! i = Some p /\
                d = ((e - p) / p * 100)%Q.
Proof.
  unfold drawdown. rewrite list_elem_of_lookup. split.
  - intros (i & Hd). apply lookup_zip_with_Some in Hd
      as (e & p & -> & He & Hp). eauto 6.
  - intros (i & e & p & He & Hp & ->). exists i.
    apply lookup_zip_with_Some. eauto.
Qed.

Lemma cummax_positive (initial : Q) (later : list Q) (i : nat) (p : Q) :
  (0 < initial)%Q -> cummax (initial :: later) !! i = Some p -> (0 < p)%Q.
Proof.
  intros H0 Hp. destruct (cummax_lookup _ _ _ Hp) as [Hge _].
  eapply Qlt_le_trans; [exact H0|].
  apply (Hge 0%nat); [lia | reflexivity].
Qed.

(** C6: on an equity column that starts from a positive initial capital,
    the code's max drawdown (running maximum, drawdown per bar, minimum) is
    the minimum over all bars of
    (equity[i] - max(equity[0..i])) / max(equity[0..i]) * 100; it is at most
    0, and it is 0 exactly when the equity never decreases. *)
Theorem max_drawdown_nonpositive (initial_capital : Q) (later : list Q) :
  (0 < initial_capital)%Q ->
  exists m,
    max_drawdown_of (initial_capital :: later) = Some m /\
    max_drawdown_spec (initial_capital :: later) = Some m /\
    (m <= 0)%Q /\
    ((m == 0)%Q <-> non_decreasing (initial_capital :: later)).
Proof.
  intros H0. set (total := initial_capital :: later).
  assert (Hsome : is_Some (max_drawdown_of total)).
  { unfold max_drawdown_of, total; simpl. eauto. }
  destruct Hsome as [m Hm]. exists m.
  split; [assumption|]. split.
  { unfold max_drawdown_spec. rewrite drawdown_refines. exact Hm. }
  unfold max_drawdown_of in Hm.
  destruct (series_min_spec _ _ Hm) as (Hlow & d0 & Hd0 & Em).
  assert (Hneg : forall d, d ∈ drawdown total (cummax total) -> (d <= 0)%Q).
  { intros d Hd. apply drawdown_elem in Hd as (i & e & p & He & Hp & ->).
    apply drawdown_nonpos.
    - eapply cummax_positive; eauto.
    - destruct (cummax_lookup _ _ _ Hp) as [Hge _]. apply (Hge i); [lia|assumption]. }
  split; [rewrite Em; apply Hneg; assumption|]. split.
  - intros Hz i j x y Hij Hx Hy.
    assert (is_Some (cummax total !! j)) as [p Hp].
    { apply lookup_lt_is_Some_2. rewrite length_cummax.
      eapply lookup_lt_Some; eauto. }
    assert (Hd : ((y - p) / p * 100 == 0)%Q).
    { assert (Hin : ((y - p) / p * 100)%Q ∈ drawdown total (cummax total))
        by (apply drawdown_elem; eauto 6).
      pose proof (Hlow _ Hin). pose proof (Hneg _ Hin).
      rewrite Hz in *. apply Qle_antisym; assumption. }
    assert (Hpp : (0 < p)%Q) by (eapply cummax_positive; eauto).
    apply (proj1 (drawdown_zero y p Hpp)) in Hd.
    rewrite Hd. destruct (cummax_lookup _ _ _ Hp) as [Hge _].
    apply (Hge i); assumption.
  - intros Hmono. rewrite Em.
    apply drawdown_elem in Hd0 as (i & e & p & He & Hp & ->).
    assert (Hpp : (0 < p)%Q) by (eapply cummax_positive; eauto).
    apply (proj2 (drawdown_zero e p Hpp)).
    destruct (cummax_lookup _ _ _ Hp) as [Hge (j & ej & Hj & Hej & Ep)].
    apply Qle_antisym; [apply (Hge i); [lia | assumption]|].
    rewrite Ep. apply (Hmono j i); assumption.
Qed.


(** ** Instances on the example tables *)

Lemma accounting_identity_witness :
  positive_closes example_data /\
  exists f,
    backtest_timeline 100 example_data = Ok f /\
    (forall i bar, example_data !! i = Some bar ->
       exists c p v e,
         cash f !! i = Some c /\ position f !! i = Some p /\
         position_value f !! i = Some v /\ total_assets f !! i = Some e /\
         (v == inject_Z p * close bar)%Q /\
         (e == c + inject_Z p * close bar)%Q) /\
    (example_data <> [] ->
       total_assets f !! 0%nat = Some 100%Q /\
       position f !! 0%nat = Some 0).
Proof.
  assert (H : positive_closes example_data)
    by (apply positive_closes_forallb; reflexivity).
  split; [exact H | exact (accounting_identity 100 example_data H)].
Defined.




Lemma max_drawdown_nonpositive_witness :
  (0 < 100)%Q /\
  exists m,
    max_drawdown_of [100; 100; 100; 148; 184]%Q = Some m /\
    max_drawdown_spec [100; 100; 100; 148; 184]%Q = Some m /\
    (m <= 0)%Q /\
    ((m == 0)%Q <-> non_decreasing [100; 100; 100; 148; 184]%Q).
Proof.
  assert (H : (0 < 100)%Q) by reflexivity.
  split; [exact H|].
  exact (max_drawdown_nonpositive 100 [100; 100; 148; 184]%Q H).
Defined.

Lemma trade_record_order_witness :
  increasing_dates example_data /\
  exists pr,
    pair_trades example_data = Ok pr /\
    forall r, r ∈ trade_records pr ->
      exists i j b n,
        (i < j)%nat /\ example_data !! i = Some b /\
        example_data !! j = Some n /\
        signal b = 1 /\ signal n = -1 /\
        r = trade_record b n /\ buy_date r < sell_date r.
Proof.
  assert (H : increasing_dates example_data).
  { unfold increasing_dates, example_data, bars_of; simpl.
    repeat constructor. }
  split; [exact H | exact (trade_record_order example_data H)].
Defined.


(** * Further properties of the backtest loop *)

Lemma step_row_equity (bar : Bar) (cp : Z) (c : Q) (p : Z)
    (c' : Q) (p' cp' : Z) :
  flat_or_long cp p ->
  step_row bar cp c p = Ok (c', p', cp') ->
  (c' + inject_Z p' * close bar == c + inject_Z p * close bar)%Q.
Proof.
  intros Hfl. unfold step_row. unfold_result.
  destruct ((signal bar =? 1) && (cp =? 0)) eqn:E1.
  - apply andb_true_iff in E1 as [_ Ecp]. apply Z.eqb_eq in Ecp.
    assert (p = 0) by (destruct Hfl as [[? ?]|[? ?]]; lia). subst p.
    destruct (py_int_div c (close bar)) as [n|]; [|discriminate].
    destruct (n >? 0); intros [= <- <- <-]; [ring | reflexivity].
  - destruct ((signal bar =? -1) && (cp =? 1)).
    + destruct (p >? 0); intros [= <- <- <-]; [ring | reflexivity].
    + intros [= <- <- <-]. reflexivity.
Qed.

(** X1: a trade moves value between cash and shares at the bar's close and
    costs nothing: the equity of every bar [i >= 1] is the cash and the
    shares of bar [i - 1] valued at the close of bar [i]. *)
Theorem trades_conserve_equity (initial_capital : Q) (data : list Bar)
    (i : nat) (bar : Bar) :
  positive_closes data ->
  (1 <= i)%nat ->
  data !! i = Some bar ->
  exists f c p e,
    backtest_timeline initial_capital data = Ok f /\
    cash f !! (i - 1)%nat = Some c /\
    position f !! (i - 1)%nat = Some p /\
    total_assets f !! i = Some e /\
    (e == c + inject_Z p * close bar)%Q.
Proof.
  intros Hpos Hi Hbar. destruct i as [|k]; [lia|].
  replace (S k - 1)%nat with k by lia.
  destruct (backtest_timeline_rows initial_capital data Hpos)
    as (f & Hf & _ & _).
  destruct (backtest_timeline_row_S _ _ _ _ _ Hpos Hf Hbar)
    as (s & c & p & c' & p' & cp' & _ & Hfl & Hc & Hp & Hstep & _ & Hrow).
  unfold row_of in Hrow. injection Hrow as E1 E2 E3 E4.
  exists f, c, p, (c' + inject_Z p' * close bar)%Q.
  split; [assumption|]. split; [assumption|]. split; [assumption|].
  split; [assumption|]. eapply step_row_equity; eauto.
Qed.

(** X2: the engine holds one position or none: after every bar the loop
    variable is 0 with no share held, or 1 with at least one share held; the
    share count of a bar is never negative. *)
Theorem single_position (initial_capital : Q) (data : list Bar) :
  positive_closes data ->
  exists f,
    backtest_timeline initial_capital data = Ok f /\
    forall k bar, data !! k = Some bar ->
      exists s p,
        backtest_upto initial_capital data k = Ok s /\
        position f !! k = Some p /\ 0 <= p /\
        ((current_position s = 0 /\ p = 0) \/
         (current_position s = 1 /\ p > 0)).
Proof.
  intros Hpos.
  destruct (backtest_timeline_rows initial_capital data Hpos)
    as (f & Hf & _ & Hrows).
  exists f. split; [assumption|]. intros k bar Hbar.
  assert (Hk : (k < length data)%nat) by (eapply lookup_lt_Some; eauto).
  destruct (backtest_upto_inv initial_capital data k Hpos Hk)
    as (s & Hs & _ & p & Hp & Hfl).
  exists s, p. split; [assumption|].
  pose proof (Hrows k s Hk Hs k ltac:(lia)) as Hrow.
  unfold row_of in Hrow. injection Hrow as E1 E2 E3 E4.
  split; [congruence|].
  split; [destruct Hfl as [[? ?]|[? ?]]; lia | exact Hfl].
Qed.

Lemma for_range_ext {S : Type} (body1 body2 : nat -> S -> result S)
    (rows : list nat) (s : S) :
  (forall i s', i ∈ rows -> body1 i s' = body2 i s') ->
  for_range body1 rows s = for_range body2 rows s.
Proof.
  revert s. induction rows as [|i rows IH]; intros s Hext; simpl;
    [reflexivity|].
  rewrite (Hext i s) by left. unfold_result.
  destruct (body2 i s); [|reflexivity].
  apply IH. intros j s' Hj. apply Hext. right. assumption.
Qed.

(** X3: the loop starts at row 1, so nothing of bar 0 (its signal, its
    close, its date) reaches the timeline: two series that differ only in
    bar 0 give the same result. *)
Theorem first_bar_ignored (initial_capital : Q) (bar0 bar0' : Bar)
    (later : list Bar) :
  backtest_timeline initial_capital (bar0 :: later) =
  backtest_timeline initial_capital (bar0' :: later).
Proof.
  unfold backtest_timeline, backtest_upto. simpl length.
  change (backtest_init initial_capital (bar0 :: later))
    with (backtest_init initial_capital (bar0' :: later)).
  apply for_range_ext. intros i s Hi.
  apply elem_of_seq in Hi as [Hi _].
  destruct i as [|k]; [lia|]. reflexivity.
Qed.

Lemma step_row_no_buy (bar : Bar) (c : Q) (p : Z) :
  signal bar <> 1 -> step_row bar 0 c p = Ok (c, p, 0).
Proof.
  intros Hs. apply step_row_hold.
  destruct (Z.eq_dec (signal bar) (-1)); [right; right | left]; auto.
Qed.

(** While no buy signal has been met the table keeps its initial cash and
    shares, whatever the closes are. *)
Lemma backtest_upto_no_buy (cap : Q) (data : list Bar) (k : nat) :
  (k <= length data - 1)%nat ->
  no_buy_upto data k ->
  exists s,
    backtest_upto cap data k = Ok s /\
    well_formed (length data) s /\
    cash s = replicate (length data) cap /\
    position s = replicate (length data) 0 /\
    Forall (fun e => (e == cap)%Q) (total_assets s) /\
    current_position s = 0.
Proof.
  induction k as [|k IH]; intros Hk Hno.
  - exists (backtest_init cap data). split; [reflexivity|].
    unfold well_formed, backtest_init; simpl. rewrite !length_replicate.
    repeat split. apply Forall_replicate. reflexivity.
  - destruct IH as (s & Hs & Hwf & Hcash & Hposn & Htot & Hcp); [lia| |].
    { intros j bar Hj. apply Hno. lia. }
    assert (HSk : (S k < length data)%nat) by lia.
    assert (is_Some (data !! S k)) as [bar Hbar]
      by (apply lookup_lt_is_Some_2; assumption).
    assert (Hsig : signal bar <> 1) by (apply (Hno (S k)); [lia | assumption]).
    exists (commit (S k) bar s (cap, 0, 0)). split.
    + rewrite backtest_upto_S, Hs. simpl.
      rewrite (loop_body_unfold data (S k) s bar cap 0);
        try assumption; try lia.
      * rewrite Hcp, step_row_no_buy by assumption. reflexivity.
      * rewrite Hcash. apply lookup_replicate_2. lia.
      * rewrite Hposn. apply lookup_replicate_2. lia.
    + split; [apply commit_well_formed; assumption|]. simpl.
      rewrite Hcash, Hposn.
      rewrite !list_insert_id by (apply lookup_replicate_2; lia).
      repeat split. apply Forall_insert; [assumption | ring].
Qed.

(** X4: a series with no buy signal after bar 0 is never traded, whatever
    its closes (zero and negative closes included): nothing is raised, every
    bar keeps the initial capital as cash, holds no share, and has an equity
    equal to the initial capital. *)
Theorem no_buy_signal_stays_flat (initial_capital : Q) (data : list Bar) :
  no_buy_upto data (length data - 1) ->
  exists f,
    backtest_timeline initial_capital data = Ok f /\
    cash f = replicate (length data) initial_capital /\
    position f = replicate (length data) 0 /\
    length (total_assets f) = length data /\
    Forall (fun e => (e == initial_capital)%Q) (total_assets f).
Proof.
  intros Hno.
  destruct (backtest_upto_no_buy initial_capital data (length data - 1))
    as (f & Hf & (_ & _ & _ & Hlen) & Hcash & Hposn & Htot & _);
    [lia | assumption |].
  exists f. unfold backtest_timeline. auto.
Qed.

Lemma backtest_upto_raise (cap : Q) (data : list Bar) (k k' : nat) (e : exn) :
  (k <= k')%nat ->
  backtest_upto cap data k = Raise e ->
  backtest_upto cap data k' = Raise e.
Proof.
  induction 1 as [|k' Hle IH]; intros Hr; [assumption|].
  rewrite backtest_upto_S, IH by assumption. reflexivity.
Qed.

(** X5: a zero close on the first buy signal after bar 0 stops the backtest:
    [int(cash / 0)] raises OverflowError, or ValueError when the capital is
    0 as well. *)
Theorem zero_close_on_buy_raises (initial_capital : Q) (data : list Bar)
    (i : nat) (bar : Bar) :
  (1 <= i)%nat ->
  data !! i = Some bar ->
  signal bar = 1 ->
  (close bar == 0)%Q ->
  no_buy_upto data (i - 1) ->
  backtest_timeline initial_capital data =
    Raise (if Qeq_bool initial_capital 0 then ValueError else OverflowError).
Proof.
  intros Hi Hbar Hsig Hclose Hno.
  assert (Hlt : (i < length data)%nat) by (eapply lookup_lt_Some; eauto).
  destruct i as [|k]; [lia|].
  replace (S k - 1)%nat with k in Hno by lia.
  destruct (backtest_upto_no_buy initial_capital data k)
    as (s & Hs & Hwf & Hcash & Hposn & _ & Hcp); [lia | assumption |].
  unfold backtest_timeline.
  apply (backtest_upto_raise _ _ (S k)); [lia|].
  rewrite backtest_upto_S, Hs. simpl.
  rewrite (loop_body_unfold data (S k) s bar initial_capital 0);
    try assumption; try lia.
  - rewrite Hcp. unfold step_row. rewrite Hsig. simpl.
    unfold py_int_div.
    apply Qeq_bool_iff in Hclose. rewrite Hclose.
    destruct (Qeq_bool initial_capital 0); reflexivity.
  - rewrite Hcash. apply lookup_replicate_2. lia.
  - rewrite Hposn. apply lookup_replicate_2. lia.
Qed.




(** * The performance report after the loop *)

Lemma calculate_performance_outcome (float_pow : Q -> Q -> Q) (cap : Q)
    (data : list Bar) (s : Frame) :
  well_formed (length data) s ->
  match elapsed_days data with
  | None => calculate_performance float_pow cap data s = Raise IndexError
  | Some days =>
      if days =? 0
      then calculate_performance float_pow cap data s
           = Raise ZeroDivisionError
      else exists perf,
          calculate_performance float_pow cap data s = Ok perf /\
          last (total_assets s) = Some (perf_final_capital perf) /\
          (total_return perf ==
             (perf_final_capital perf - cap) / cap * 100)%Q /\
          max_drawdown perf = max_drawdown_of (total_assets s) /\
          trade_count perf = length (nonzero_signals data)
  end.
Proof.
  intros (_ & _ & _ & Hlen).
  unfold elapsed_days, calculate_performance, iloc_last. unfold_result.
  destruct data as [|first rest].
  - simpl in *. destruct (total_assets s); [reflexivity | discriminate].
  - assert (is_Some (last (total_assets s))) as [final Hfinal].
    { destruct (total_assets s) as [|e l]; [discriminate|].
      apply last_is_Some. discriminate. }
    assert (is_Some (last (first :: rest))) as [lastbar Hlast]
      by (apply last_is_Some; discriminate).
    rewrite Hfinal, Hlast. rewrite fmap_last, Hlast. simpl.
    destruct (date lastbar - date first =? 0); [reflexivity|].
    eexists. split; [reflexivity|]. simpl.
    repeat split; reflexivity.
Qed.

(** X7: [backtest] as a whole, on a series with positive closes: an empty
    table raises IndexError at [iloc[-1]]; a table whose first and last
    dates coincide raises ZeroDivisionError at [365 / days]; every other
    table returns its timeline and a report whose final capital is the last
    equity and whose trade count is the number of non-zero signals. *)
Theorem backtest_outcome (float_pow : Q -> Q -> Q) (initial_capital : Q)
    (data : list Bar) :
  positive_closes data ->
  match elapsed_days data with
  | None => backtest float_pow initial_capital data = Raise IndexError
  | Some days =>
      if days =? 0
      then backtest float_pow initial_capital data = Raise ZeroDivisionError
      else exists f perf,
          backtest float_pow initial_capital data = Ok (f, perf) /\
          backtest_timeline initial_capital data = Ok f /\
          last (total_assets f) = Some (perf_final_capital perf) /\
          max_drawdown perf = max_drawdown_of (total_assets f) /\
          trade_count perf = length (nonzero_signals data)
  end.
Proof.
  intros Hpos.
  destruct (backtest_timeline_rows initial_capital data Hpos)
    as (f & Hf & Hwf & _).
  pose proof (calculate_performance_outcome float_pow initial_capital
                data f Hwf) as Hperf.
  unfold backtest. rewrite Hf. unfold_result.
  destruct (elapsed_days data) as [days|]; [|rewrite Hperf; reflexivity].
  destruct (days =? 0); [rewrite Hperf; reflexivity|].
  destruct Hperf as (perf & Hp & Hlast & _ & Hdd & Htc).
  exists f, perf. rewrite Hp. auto.
Qed.

Lemma max_drawdown_of_elem (initial : Q) (later : list Q) :
  (0 < initial)%Q ->
  exists m i e p,
    max_drawdown_of (initial :: later) = Some m /\
    (initial :: later) !! i = Some e /\
    cummax (initial :: later) !! i = Some p /\
    (0 < p)%Q /\ (e <= p)%Q /\ (m == (e - p) / p * 100)%Q.
Proof.
  intros H0. set (total := initial :: later).
  assert (is_Some (max_drawdown_of total)) as [m Hm]
    by (unfold max_drawdown_of, total; simpl; eauto).
  unfold max_drawdown_of in Hm.
  destruct (series_min_spec _ _ Hm) as (_ & d & Hd & Em).
  apply drawdown_elem in Hd as (i & e & p & He & Hp & ->).
  exists m, i, e, p. split; [exact Hm|].
  split; [assumption|]. split; [assumption|].
  split; [eapply cummax_positive; eauto|].
  split; [|assumption].
  destruct (cummax_lookup _ _ _ Hp) as [Hge _]. apply (Hge i); [lia | assumption].
Qed.

Lemma cummax_all_equal (total : list Q) (x : Q) (i : nat) (p : Q) :
  Forall (fun e => (e == x)%Q) total ->
  cummax total !! i = Some p -> (p == x)%Q.
Proof.
  intros Hall Hp.
  destruct (cummax_lookup _ _ _ Hp) as [_ (j & e & _ & He & Ep)].
  rewrite Ep. rewrite Forall_forall in Hall. apply Hall.
  eapply list_elem_of_lookup_2; eauto.
Qed.

(** X8: a series with no buy signal after bar 0, spanning at least one
    day, with a positive initial capital: the report gives back the initial
    capital as final capital, a total return of 0 and a max drawdown of
    0. *)
Theorem no_buy_signal_report (float_pow : Q -> Q -> Q) (initial_capital : Q)
    (data : list Bar) (days : Z) :
  (0 < initial_capital)%Q ->
  no_buy_upto data (length data - 1) ->
  elapsed_days data = Some days ->
  days <> 0 ->
  exists f perf m,
    backtest float_pow initial_capital data = Ok (f, perf) /\
    (perf_final_capital perf == initial_capital)%Q /\
    (total_return perf == 0)%Q /\
    max_drawdown perf = Some m /\ (m == 0)%Q.
Proof.
  intros Hcap Hno Hdays Hnz.
  destruct (backtest_upto_no_buy initial_capital data (length data - 1))
    as (f & Hf & Hwf & _ & _ & Htot & _); [lia | assumption |].
  pose proof (calculate_performance_outcome float_pow initial_capital
                data f Hwf) as Hperf.
  rewrite Hdays in Hperf.
  destruct (days =? 0) eqn:E; [lia|].
  destruct Hperf as (perf & Hp & Hlast & Hret & Hdd & _).
  assert (Hfinal : (perf_final_capital perf == initial_capital)%Q).
  { rewrite Forall_forall in Htot. apply Htot.
    apply last_Some_elem_of. assumption. }
  destruct (total_assets f) as [|e0 later] eqn:Et; [discriminate|].
  assert (He0 : (e0 == initial_capital)%Q)
    by (apply Forall_cons in Htot as [? _]; assumption).
  destruct (max_drawdown_of_elem e0 later) as (m & i & e & p & Hm & He & Hpk & Hp0 & _ & Em).
  { rewrite He0. assumption. }
  exists f, perf, m. split.
  { unfold backtest. fold (backtest_timeline initial_capital data) in Hf.
    rewrite Hf. unfold_result. rewrite Hp. reflexivity. }
  split; [assumption|]. split.
  { rewrite Hret, Hfinal. field.
    intros E0. rewrite E0 in Hcap. inversion Hcap. }
  split; [congruence|].
  rewrite Em. apply (proj2 (drawdown_zero e p Hp0)).
  rewrite (cummax_all_equal _ initial_capital _ _ Htot Hpk).
  rewrite Forall_forall in Htot. apply Htot.
  eapply list_elem_of_lookup_2; eauto.
Qed.

Lemma step_row_solvent (bar : Bar) (cp : Z) (c : Q) (p : Z)
    (c' : Q) (p' cp' : Z) :
  (0 < close bar)%Q ->
  (0 <= c)%Q -> (p = 0 -> (0 < c)%Q) ->
  step_row bar cp c p = Ok (c', p', cp') ->
  p' = 0 -> (0 < c')%Q.
Proof.
  intros Hclose Hc Hflat. unfold step_row. unfold_result.
  destruct ((signal bar =? 1) && (cp =? 0)).
  - destruct (py_int_div c (close bar)) as [n|]; [|discriminate].
    destruct (n >? 0) eqn:E; intros [= <- <- <-] Hp'; [lia | auto].
  - destruct ((signal bar =? -1) && (cp =? 1)).
    + destruct (p >? 0) eqn:E; intros [= <- <- <-] Hp'; [|auto].
      assert (0 < inject_Z p * close bar)%Q as Hrev.
      { apply Qmult_lt_0_compat; [|assumption].
        change 0%Q with (inject_Z 0). rewrite <- Zlt_Qlt. lia. }
      generalize dependent (inject_Z p * close bar)%Q. intros revenue Hrev.
      lra.
    + intros [= <- <- <-] Hp'. auto.
Qed.

(** The cash of a bar is positive when no share is held, and the equity of
    every bar is positive. *)
Lemma backtest_timeline_solvent (cap : Q) (data : list Bar) (f : Frame) :
  positive_closes data ->
  (0 < cap)%Q ->
  backtest_timeline cap data = Ok f ->
  forall i bar, data !! i = Some bar ->
    exists c p e,
      cash f !! i = Some c /\ position f !! i = Some p /\
      total_assets f !! i = Some e /\
      (0 <= c)%Q /\ 0 <= p /\ (p = 0 -> (0 < c)%Q) /\ (0 < e)%Q.
Proof.
  intros Hpos Hcap Hf.
  induction i as [|k IH]; intros bar Hbar.
  - assert (Hn : (0 < length data)%nat) by (eapply lookup_lt_Some; eauto).
    pose proof (backtest_timeline_row_0 _ _ _ Hpos Hn Hf) as H0.
    unfold row_of in H0. injection H0 as E1 E2 E3 E4.
    exists cap, 0, cap. repeat split; try assumption; try lia;
      [apply Qlt_le_weak; assumption | intros _; assumption].
  - destruct (backtest_timeline_row_S _ _ _ _ _ Hpos Hf Hbar)
      as (s & c & p & c' & p' & cp' & _ & Hfl & Hc & Hp & Hstep & _ & Hrow).
    unfold row_of in Hrow. injection Hrow as E1 E2 E3 E4.
    assert (is_Some (data !! k)) as [bar0 Hbar0].
    { apply lookup_lt_is_Some_2. apply lookup_lt_Some in Hbar. lia. }
    destruct (IH bar0 Hbar0) as (c0 & p0 & e0 & Hc0 & Hp0 & _ & Hge & _ & Hflat & _).
    assert (c0 = c) by congruence. assert (p0 = p) by congruence. subst c0 p0.
    assert (Hclose : (0 < close bar)%Q).
    { apply Hpos. eapply list_elem_of_lookup_2; eauto. }
    assert (Hge' : (0 <= c')%Q) by (eapply step_row_cash_nonneg; eauto).
    assert (Hfl' : flat_or_long cp' p')
      by exact (step_row_flat_or_long _ _ _ _ _ _ _ Hstep Hfl).
    assert (Hp' : 0 <= p') by (destruct Hfl' as [[? ?]|[? ?]]; lia).
    assert (Hflat' : p' = 0 -> (0 < c')%Q)
      by exact (step_row_solvent _ _ _ _ _ _ _ Hclose Hge Hflat Hstep).
    exists c', p', (c' + inject_Z p' * close bar)%Q.
    split; [assumption|]. split; [assumption|]. split; [assumption|].
    split; [assumption|]. split; [assumption|]. split; [assumption|].
    destruct (Z.eq_dec p' 0) as [->|Hne].
    + specialize (Hflat' eq_refl).
      assert (E0 : (c' + inject_Z 0 * close bar == c')%Q) by ring.
      rewrite E0. assumption.
    + assert (0 < inject_Z p' * close bar)%Q as Hval.
      { apply Qmult_lt_0_compat; [|assumption].
        change 0%Q with (inject_Z 0). rewrite <- Zlt_Qlt. lia. }
      generalize dependent (inject_Z p' * close bar)%Q. intros v _ _ Hv. lra.
Qed.

(** X9: with positive closes and a positive initial capital the equity of
    every bar is positive (the cash is never overdrawn and the shares held
    have a positive price), and the max drawdown of the timeline lies above
    -100 and at most at 0. *)
Theorem equity_positive_drawdown_bounded (initial_capital : Q)
    (data : list Bar) :
  positive_closes data ->
  (0 < initial_capital)%Q ->
  data <> [] ->
  exists f m,
    backtest_timeline initial_capital data = Ok f /\
    (forall i e, total_assets f !! i = Some e -> (0 < e)%Q) /\
    max_drawdown_of (total_assets f) = Some m /\
    (-100 < m)%Q /\ (m <= 0)%Q.
Proof.
  intros Hpos Hcap Hne.
  destruct (backtest_timeline_rows initial_capital data Hpos)
    as (f & Hf & Hwf & _).
  assert (Hall : forall i e, total_assets f !! i = Some e -> (0 < e)%Q).
  { intros i e He.
    assert (is_Some (data !! i)) as [bar Hbar].
    { apply lookup_lt_is_Some_2. apply lookup_lt_Some in He.
      destruct Hwf as (_ & _ & _ & <-). assumption. }
    destruct (backtest_timeline_solvent _ _ _ Hpos Hcap Hf i bar Hbar)
      as (c & p & e' & _ & _ & He' & _ & _ & _ & Hpos').
    congruence. }
  destruct (total_assets f) as [|e0 later] eqn:Et.
  { destruct Hwf as (_ & _ & _ & Hlen). rewrite Et in Hlen.
    destruct data; [congruence | discriminate]. }
  destruct (max_drawdown_of_elem e0 later) as (m & i & e & p & Hm & He & Hpk & Hp0 & Hle & Em).
  { apply (Hall 0%nat). reflexivity. }
  exists f, m. split; [assumption|]. rewrite Et.
  split; [assumption|]. split; [assumption|].
  pose proof (Hall i e He) as He0.
  rewrite Em. split.
  - assert (H : (-1 < (e - p) / p)%Q).
    { apply Qlt_shift_div_l; [assumption | lra]. }
    generalize dependent ((e - p) / p)%Q. intros x _ Hx. lra.
  - apply drawdown_nonpos; assumption.
Qed.


(** * Further properties of the pairing *)

Lemma insert_by_date_perm (b : Bar) (rows : list Bar) :
  insert_by_date b rows ≡ₚ b :: rows.
Proof.
  induction rows as [|x rows IH]; simpl; [reflexivity|].
  destruct (date b <=? date x); [reflexivity|].
  rewrite IH. apply Permutation_swap.
Qed.

Lemma sort_index_perm (rows : list Bar) : sort_index rows ≡ₚ rows.
Proof.
  unfold sort_index. induction rows as [|x rows IH]; simpl; [reflexivity|].
  rewrite insert_by_date_perm, IH. reflexivity.
Qed.

Lemma adjacent_pairs_counts (rows : list Bar) :
  (length (adjacent_pairs rows)
     <= length (filter (fun b => (signal b = 1)%Z) rows))%nat /\
  (length (adjacent_pairs rows)
     <= length (filter (fun b => (signal b = -1)%Z) rows))%nat /\
  (2 * length (adjacent_pairs rows) <= length rows)%nat.
Proof.
  remember (length rows) as len eqn:Hlen. revert rows Hlen.
  induction len as [len IH] using lt_wf_ind. intros rows Hlen.
  destruct rows as [|b [|n rest]]; [simpl; lia | simpl; lia |].
  rewrite adjacent_pairs_cons.
  destruct ((signal b =? 1) && (signal n =? -1)) eqn:E.
  - apply andb_true_iff in E as [Eb En]. apply Z.eqb_eq in Eb, En.
    destruct (IH (length rest)) with (rows := rest) as (H1 & H2 & H3);
      [subst len; simpl; lia | reflexivity |].
    rewrite !filter_cons.
    repeat case_decide; simpl in *; try lia.
  - destruct (IH (length (n :: rest))) with (rows := n :: rest)
      as (H1 & H2 & H3); [subst len; simpl; lia | reflexivity |].
    rewrite (filter_cons _ b). rewrite (filter_cons (fun b => signal b = -1) b).
    repeat case_decide; simpl in *; lia.
Qed.

(** X10: the completed pairs never outnumber the buy signals nor the sell
    signals that [main] prints, two paired signals go into each pair, and
    the losing trades printed (pairs minus wins) are not negative. *)
Theorem pairs_bounded_by_signals (data : list Bar) :
  exists pr,
    pair_trades data = Ok pr /\
    (length (trade_records pr) <= buy_count data)%nat /\
    (length (trade_records pr) <= sell_count data)%nat /\
    (2 * length (trade_records pr) <= length (nonzero_signals data))%nat /\
    (profitable_trades pr <= length (trade_records pr))%nat.
Proof.
  destruct (pair_trades_adjacent data) as (i' & Hrun & _).
  eexists. split; [exact Hrun|]. simpl.
  destruct (adjacent_pairs_counts (sort_index (nonzero_signals data)))
    as (H1 & H2 & H3).
  pose proof (sort_index_perm (nonzero_signals data)) as Hperm.
  unfold buy_count, sell_count.
  rewrite <- (Permutation_length
                (filter_Permutation (fun b => signal b = 1) _ _ Hperm)).
  rewrite <- (Permutation_length
                (filter_Permutation (fun b => signal b = -1) _ _ Hperm)).
  rewrite <- (Permutation_length Hperm).
  split; [assumption|]. split; [assumption|]. split; [assumption|].
  apply count_wins_le.
Qed.

Lemma adjacent_pairs_first_buy (rows : list Bar) :
  Forall (fun b => signal b = 1 \/ signal b = -1) rows ->
  (forall b n, adjacent_in rows b n -> signal b = 1 -> signal n <> 1) ->
  adjacent_pairs rows = first_buy_next_sell None rows.
Proof.
  remember (length rows) as len eqn:Hlen. revert rows Hlen.
  induction len as [len IH] using lt_wf_ind. intros rows Hlen Hsig Hadj.
  destruct rows as [|b [|n rest]]; [reflexivity | |].
  - simpl. destruct (signal b =? 1); reflexivity.
  - rewrite adjacent_pairs_cons.
    apply Forall_cons in Hsig as [Hb Hsig].
    pose proof Hsig as Hsig'. apply Forall_cons in Hsig' as [Hn Hrest].
    destruct Hb as [Hb|Hb].
    + assert (Hn' : signal n = -1).
      { destruct Hn as [Hn|Hn]; [|assumption].
        exfalso. apply (Hadj b n); [exists [], rest; reflexivity | assumption..]. }
      simpl. rewrite Hb, Hn'. simpl. f_equal.
      apply (IH (length rest)); [subst len; simpl; lia | reflexivity | assumption|].
      intros b0 n0 (before & after & Heq). apply Hadj.
      exists (b :: n :: before), after. rewrite Heq. reflexivity.
    + replace ((signal b =? 1) && (signal n =? -1)) with false
        by (rewrite Hb; reflexivity).
      change (first_buy_next_sell None (b :: n :: rest))
        with (if signal b =? 1
              then first_buy_next_sell (Some b) (n :: rest)
              else first_buy_next_sell None (n :: rest)).
      rewrite Hb. simpl (-1 =? 1).
      apply (IH (length (n :: rest)));
        [subst len; simpl; lia | reflexivity | assumption|].
      intros b0 n0 (before & after & Heq). apply Hadj.
      exists (b :: before), after. rewrite Heq. reflexivity.
Qed.

(** X11: when every signal of the series is -1, 0 or +1 and no +1 is
    directly followed by another +1 in the date-sorted sequence of non-zero
    signals, the records of the loop are those of "the first +1 and the
    next -1 after it". *)
Theorem pairing_first_buy_when_alternating (data : list Bar) :
  Forall (fun b => signal b = -1 \/ signal b = 0 \/ signal b = 1) data ->
  (forall b n, adjacent_in (sort_index (nonzero_signals data)) b n ->
     signal b = 1 -> signal n <> 1) ->
  exists pr,
    pair_trades data = Ok pr /\
    trade_records pr =
      first_buy_next_sell None (sort_index (nonzero_signals data)).
Proof.
  intros Hsig Hadj.
  destruct (pair_trades_adjacent data) as (i' & Hrun & _).
  eexists. split; [exact Hrun|]. simpl.
  apply adjacent_pairs_first_buy; [|assumption].
  rewrite Forall_forall in *. intros b Hb.
  rewrite sort_index_perm in Hb.
  unfold nonzero_signals in Hb. apply list_elem_of_filter in Hb as [Hnz Hb].
  destruct (Hsig b Hb) as [?|[?|?]]; [right | contradiction | left]; assumption.
Qed.

Lemma StronglySorted_sublist {A : Type} (R : relation A) (l1 l2 : list A) :
  l1 `sublist_of` l2 -> StronglySorted R l2 -> StronglySorted R l1.
Proof.
  induction 1 as [|x l1 l2 Hsub IH|x l1 l2 Hsub IH]; intros Hs.
  - constructor.
  - apply StronglySorted_inv in Hs as [Hs Hall]. constructor; [auto|].
    rewrite Forall_forall in *. intros y Hy. apply Hall.
    eapply sublist_subseteq; eauto.
  - apply StronglySorted_inv in Hs as [Hs _]. auto.
Qed.

Lemma trade_dates_sublist (rows : list Bar) :
  trade_dates (adjacent_pairs rows) `sublist_of` (date <$> rows).
Proof.
  remember (length rows) as len eqn:Hlen. revert rows Hlen.
  induction len as [len IH] using lt_wf_ind. intros rows Hlen.
  destruct rows as [|b [|n rest]].
  - constructor.
  - simpl. apply sublist_cons. constructor.
  - rewrite adjacent_pairs_cons.
    destruct ((signal b =? 1) && (signal n =? -1)).
    + simpl. apply sublist_skip, sublist_skip.
      apply (IH (length rest)); [subst len; simpl; lia | reflexivity].
    + rewrite fmap_cons. apply sublist_cons.
      apply (IH (length (n :: rest))); [subst len; simpl; lia | reflexivity].
Qed.

(** X12: on a series with strictly increasing dates the records are listed
    in chronological order and do not overlap: each buy date is before its
    sell date, which is before the buy date of the next record. *)
Theorem trade_records_chronological (data : list Bar) :
  increasing_dates data ->
  exists pr,
    pair_trades data = Ok pr /\
    StronglySorted Z.lt (trade_dates (trade_records pr)).
Proof.
  intros Hinc.
  destruct (pair_trades_adjacent data) as (i' & Hrun & _).
  eexists. split; [exact Hrun|]. simpl.
  pose proof (sublist_filter (fun b => signal b ≠ 0) data) as Hsub.
  fold (nonzero_signals data) in Hsub.
  pose proof (increasing_dates_sublist _ _ Hsub Hinc) as Hinc'.
  rewrite sort_index_increasing by assumption.
  eapply StronglySorted_sublist; [apply trade_dates_sublist|].
  apply (StronglySorted_fmap date (fun a b => date a < date b));
    [auto | assumption].
Qed.


(** * Signal generation *)

Lemma Qltb_lt (x y : Q) : Qltb x y = true <-> (x < y)%Q.
Proof.
  unfold Qltb. rewrite negb_true_iff. split.
  - intros H. apply Qnot_le_lt. intros Hle.
    apply Qle_bool_iff in Hle. congruence.
  - intros H. destruct (Qle_bool y x) eqn:E; [|reflexivity].
    apply Qle_bool_iff in E. exfalso. eapply Qlt_not_le; eauto.
Qed.

Lemma length_scan_rule {R : Type} (rule : R -> R -> Z) (prev : R)
    (rows : list R) :
  length (scan_rule rule prev rows) = length rows.
Proof.
  revert prev. induction rows as [|r rows IH]; intros prev; simpl;
    [reflexivity | rewrite IH; reflexivity].
Qed.

Lemma length_signals_of {R : Type} (rule : R -> R -> Z) (rows : list R) :
  length (signals_of rule rows) = length rows.
Proof.
  destruct rows; simpl; [reflexivity | rewrite length_scan_rule; reflexivity].
Qed.

Lemma scan_rule_lookup {R : Type} (rule : R -> R -> Z) (prev : R)
    (rows : list R) (i : nat) (r0 r1 : R) :
  (prev :: rows) !! i = Some r0 -> rows !! i = Some r1 ->
  scan_rule rule prev rows !! i = Some (rule r0 r1).
Proof.
  revert prev i. induction rows as [|r rows IH]; intros prev i H0 H1;
    [inversion H1|].
  destruct i as [|i]; simpl in *.
  - injection H0 as <-. injection H1 as <-. reflexivity.
  - apply IH; assumption.
Qed.

Lemma signals_of_lookup {R : Type} (rule : R -> R -> Z) (rows : list R)
    (i : nat) (r0 r1 : R) :
  rows !! i = Some r0 -> rows !! S i = Some r1 ->
  signals_of rule rows !! S i = Some (rule r0 r1).
Proof.
  destruct rows as [|r rows]; [intros H; inversion H|]. simpl.
  apply scan_rule_lookup.
Qed.

(** A loop that writes row [i] of a zero column with [g i], or leaves the
    0 there when [g i = 0], fills the rows [1 .. k] with [g]. *)
Lemma for_range_column (g : nat -> Z) (body : nat -> list Z -> result (list Z))
    (n k : nat) :
  (forall i col, (1 <= i < n)%nat -> length col = n -> col !! i = Some 0 ->
     body i col = Ok (<[i:=g i]> col)) ->
  (k <= n - 1)%nat ->
  exists col,
    for_range body (seq 1 k) (replicate n 0) = Ok col /\
    length col = n /\
    (forall i, (1 <= i <= k)%nat -> col !! i = Some (g i)) /\
    (forall i, (i = 0 \/ k < i)%nat -> (i < n)%nat -> col !! i = Some 0).
Proof.
  intros Hbody. induction k as [|k IH]; intros Hk.
  - exists (replicate n 0). split; [reflexivity|].
    split; [apply length_replicate|]. split; [intros i Hi; lia|].
    intros i _ Hi. apply lookup_replicate_2. assumption.
  - destruct IH as (col & Hrun & Hlen & Hdone & Hrest); [lia|].
    exists (<[S k:=g (S k)]> col). split.
    + rewrite seq_S, for_range_app, Hrun. simpl.
      rewrite Hbody; [reflexivity | lia | assumption |].
      apply Hrest; lia.
    + split; [rewrite length_insert; assumption|]. split.
      * intros i Hi. destruct (decide (i = S k)) as [->|Hne].
        -- apply list_lookup_insert_eq. lia.
        -- rewrite list_lookup_insert_ne by lia. apply Hdone. lia.
      * intros i Hi Hn. rewrite list_lookup_insert_ne by lia.
        apply Hrest; [lia | assumption].
Qed.

Lemma signals_of_loop {R : Type} (rule : R -> R -> Z) (rows : list R)
    (body : nat -> list Z -> result (list Z)) :
  (forall i col r0 r1, rows !! i = Some r0 -> rows !! S i = Some r1 ->
     length col = length rows -> col !! S i = Some 0 ->
     body (S i) col = Ok (<[S i:=rule r0 r1]> col)) ->
  for_range body (seq 1 (length rows - 1)) (replicate (length rows) 0)
    = Ok (signals_of rule rows).
Proof.
  intros Hbody.
  set (g := fun i => match rows !! (i - 1)%nat, rows !! i with
                     | Some r0, Some r1 => rule r0 r1
                     | _, _ => 0
                     end).
  destruct (for_range_column g body (length rows) (length rows - 1))
    as (col & Hrun & Hlen & Hdone & Hrest); [|lia|].
  { intros i col [Hi1 Hi2] Hlen H0. destruct i as [|i]; [lia|].
    assert (is_Some (rows !! i)) as [r0 Hr0]
      by (apply lookup_lt_is_Some_2; lia).
    assert (is_Some (rows !! S i)) as [r1 Hr1]
      by (apply lookup_lt_is_Some_2; lia).
    unfold g. replace (S i - 1)%nat with i by lia. rewrite Hr0, Hr1.
    apply Hbody; assumption. }
  rewrite Hrun. f_equal. apply list_eq. intros i.
  destruct (decide (i < length rows)%nat) as [Hi|Hi].
  - destruct i as [|i].
    + rewrite Hrest by (auto; lia). destruct rows; [simpl in Hi; lia|].
      reflexivity.
    + rewrite Hdone by lia.
      assert (is_Some (rows !! i)) as [r0 Hr0]
        by (apply lookup_lt_is_Some_2; lia).
      assert (is_Some (rows !! S i)) as [r1 Hr1]
        by (apply lookup_lt_is_Some_2; lia).
      rewrite (signals_of_lookup rule rows i r0 r1 Hr0 Hr1).
      unfold g. replace (S i - 1)%nat with i by lia. rewrite Hr0, Hr1.
      reflexivity.
  - rewrite !lookup_ge_None_2; [reflexivity | |];
      rewrite ?length_signals_of; lia.
Qed.

Lemma macd_generate_signals_scan (dif dea : list Q) :
  length dea = length dif ->
  macd_generate_signals dif dea = Ok (signals_of macd_rule (zip dif dea)).
Proof.
  intros Hlen. unfold macd_generate_signals.
  assert (Hz : length (zip dif dea) = length dif)
    by (rewrite length_zip_with; lia).
  rewrite <- Hz. apply signals_of_loop.
  intros i col [d0 e0] [d1 e1] H0 H1 Hcol Hzero.
  apply lookup_zip_with_Some in H0 as (? & ? & [= <- <-] & Hd0 & He0).
  apply lookup_zip_with_Some in H1 as (? & ? & [= <- <-] & Hd1 & He1).
  assert (Hi : (S i < length col)%nat) by (eapply lookup_lt_Some; eauto).
  unfold macd_signal_body, macd_rule, macd_cross. unfold_result. simpl.
  rewrite Nat.sub_0_r, Hd0, He0. simpl.
  destruct (Qltb d0 e0); simpl; rewrite ?Hd1, ?He1; simpl.
  - destruct (Qltb e1 d1); simpl.
    + rewrite decide_True by assumption. reflexivity.
    + destruct (Qltb e0 d0); simpl; rewrite ?Hd1, ?He1; simpl.
      * destruct (Qltb d1 e1); simpl.
        -- rewrite decide_True by assumption. reflexivity.
        -- rewrite list_insert_id by assumption. reflexivity.
      * rewrite list_insert_id by assumption. reflexivity.
  - destruct (Qltb e0 d0); simpl; rewrite ?Hd1, ?He1; simpl.
    + destruct (Qltb d1 e1); simpl.
      * rewrite decide_True by assumption. reflexivity.
      * rewrite list_insert_id by assumption. reflexivity.
    + rewrite list_insert_id by assumption. reflexivity.
Qed.

Lemma Qltb_asym (x y : Q) : Qltb x y = true -> Qltb y x = true -> False.
Proof.
  rewrite !Qltb_lt. intros H1 H2. eapply Qlt_irrefl, Qlt_trans; eauto.
Qed.

Lemma macd_cross_spec (d0 e0 d1 e1 : Q) :
  (macd_cross d0 e0 d1 e1 = 1 <-> (d0 < e0)%Q /\ (e1 < d1)%Q) /\
  (macd_cross d0 e0 d1 e1 = -1 <-> (e0 < d0)%Q /\ (d1 < e1)%Q) /\
  (macd_cross d0 e0 d1 e1 = -1 \/ macd_cross d0 e0 d1 e1 = 0 \/
   macd_cross d0 e0 d1 e1 = 1).
Proof.
  unfold macd_cross. rewrite <- !Qltb_lt.
  pose proof (Qltb_asym d0 e0) as Hx.
  destruct (Qltb d0 e0), (Qltb e1 d1), (Qltb e0 d0), (Qltb d1 e1); simpl;
    try (exfalso; apply Hx; reflexivity);
    intuition (try discriminate; try lia).
Qed.

(** X13: the MACD signal loop raises nothing and returns one signal per
    row; row 0 keeps 0; row [i + 1] is +1 exactly on a golden cross (DIF
    below DEA at row [i], above at row [i + 1]), -1 exactly on a dead
    cross (above, then below), and 0 otherwise. *)
Theorem macd_signals_are_crossings (dif dea : list Q) :
  length dea = length dif ->
  exists signals,
    macd_generate_signals dif dea = Ok signals /\
    length signals = length dif /\
    (forall s, signals !! 0%nat = Some s -> s = 0) /\
    (forall i d0 e0 d1 e1,
       dif !! i = Some d0 -> dea !! i = Some e0 ->
       dif !! S i = Some d1 -> dea !! S i = Some e1 ->
       exists s,
         signals !! S i = Some s /\
         (s = 1 <-> (d0 < e0)%Q /\ (e1 < d1)%Q) /\
         (s = -1 <-> (e0 < d0)%Q /\ (d1 < e1)%Q) /\
         (s = -1 \/ s = 0 \/ s = 1)).
Proof.
  intros Hlen. exists (signals_of macd_rule (zip dif dea)).
  split; [apply macd_generate_signals_scan; assumption|].
  split; [rewrite length_signals_of, length_zip_with; lia|]. split.
  - intros s. destruct (zip dif dea); simpl; congruence.
  - intros i d0 e0 d1 e1 Hd0 He0 Hd1 He1.
    exists (macd_cross d0 e0 d1 e1). split; [|apply macd_cross_spec].
    apply (signals_of_lookup macd_rule _ i (d0, e0) (d1, e1));
      apply lookup_zip_with_Some; eauto.
Qed.



(** X15: with or without ties, the MACD loop never gives the same non-zero
    signal to two consecutive rows. *)
Theorem macd_no_repeat_on_next_bar (dif dea : list Q) (i : nat) :
  length dea = length dif ->
  exists signals,
    macd_generate_signals dif dea = Ok signals /\
    forall s, signals !! i = Some s -> signals !! S i = Some s -> s = 0.
Proof.
  intros Hlen. exists (signals_of macd_rule (zip dif dea)).
  split; [apply macd_generate_signals_scan; assumption|].
  intros s Hi HSi.
  assert (HlenS : (S i < length (zip dif dea))%nat).
  { apply lookup_lt_Some in HSi. rewrite length_signals_of in HSi. lia. }
  destruct i as [|i].
  { destruct (zip dif dea); simpl in Hi; congruence. }
  assert (is_Some (zip dif dea !! i)) as [[d0 e0] H0]
    by (apply lookup_lt_is_Some_2; lia).
  assert (is_Some (zip dif dea !! S i)) as [[d1 e1] H1]
    by (apply lookup_lt_is_Some_2; lia).
  assert (is_Some (zip dif dea !! S (S i))) as [[d2 e2] H2]
    by (apply lookup_lt_is_Some_2; lia).
  rewrite (signals_of_lookup macd_rule _ i _ _ H0 H1) in Hi.
  rewrite (signals_of_lookup macd_rule _ (S i) _ _ H1 H2) in HSi.
  injection Hi as Hi. injection HSi as HSi.
  unfold macd_rule in *. simpl in *.
  destruct (macd_cross_spec d0 e0 d1 e1) as (A1 & A2 & A3).
  destruct (macd_cross_spec d1 e1 d2 e2) as (B1 & B2 & B3).
  rewrite Hi in *. rewrite HSi in *.
  destruct A3 as [-> | [-> | ->]]; [|reflexivity|].
  - destruct (proj1 A2 eq_refl) as [_ H]. destruct (proj1 B2 eq_refl) as [H' _].
    exfalso. eapply Qlt_irrefl, Qlt_trans; eauto.
  - destruct (proj1 A1 eq_refl) as [_ H]. destruct (proj1 B1 eq_refl) as [H' _].
    exfalso. eapply Qlt_irrefl, Qlt_trans; eauto.
Qed.

Lemma boll_generate_signals_scan (closes lower upper : list Q) :
  length lower = length closes ->
  length upper = length closes ->
  boll_generate_signals closes lower upper =
    Ok (signals_of boll_rule (zip closes (zip lower upper))).
Proof.
  intros Hlo Hup. unfold boll_generate_signals.
  assert (Hz : length (zip closes (zip lower upper)) = length closes)
    by (rewrite !length_zip_with; lia).
  rewrite <- Hz. apply signals_of_loop.
  intros i col [c0 [l0 u0]] [c1 [l1 u1]] H0 H1 Hcol Hzero.
  apply lookup_zip_with_Some in H0 as (? & ? & [= <- <-] & Hc0 & H0).
  apply lookup_zip_with_Some in H0 as (? & ? & [= <- <-] & Hl0 & Hu0).
  apply lookup_zip_with_Some in H1 as (? & ? & [= <- <-] & Hc1 & H1).
  apply lookup_zip_with_Some in H1 as (? & ? & [= <- <-] & Hl1 & Hu1).
  assert (Hi : (S i < length col)%nat) by (eapply lookup_lt_Some; eauto).
  unfold boll_signal_body, boll_rule, boll_cross. unfold_result. simpl.
  rewrite Nat.sub_0_r, Hc0, Hl0, Hu0. simpl.
  destruct (Qle_bool c0 l0); simpl; rewrite ?Hc1, ?Hl1; simpl.
  - destruct (Qltb l1 c1); simpl.
    + rewrite decide_True by assumption. reflexivity.
    + destruct (Qle_bool c0 u0); simpl; rewrite ?Hc1, ?Hu1; simpl.
      * destruct (Qltb u1 c1); simpl.
        -- rewrite decide_True by assumption. reflexivity.
        -- rewrite list_insert_id by assumption. reflexivity.
      * rewrite list_insert_id by assumption. reflexivity.
  - destruct (Qle_bool c0 u0); simpl; rewrite ?Hc1, ?Hu1; simpl.
    + destruct (Qltb u1 c1); simpl.
      * rewrite decide_True by assumption. reflexivity.
      * rewrite list_insert_id by assumption. reflexivity.
    + rewrite list_insert_id by assumption. reflexivity.
Qed.

Lemma boll_cross_spec (c0 l0 u0 c1 l1 u1 : Q) :
  (boll_cross c0 l0 u0 c1 l1 u1 = 1 <-> (c0 <= l0)%Q /\ (l1 < c1)%Q) /\
  (boll_cross c0 l0 u0 c1 l1 u1 = -1 <->
     ~ ((c0 <= l0)%Q /\ (l1 < c1)%Q) /\ (c0 <= u0)%Q /\ (u1 < c1)%Q) /\
  (boll_cross c0 l0 u0 c1 l1 u1 = -1 \/ boll_cross c0 l0 u0 c1 l1 u1 = 0 \/
   boll_cross c0 l0 u0 c1 l1 u1 = 1).
Proof.
  unfold boll_cross. rewrite <- !Qltb_lt, <- !Qle_bool_iff.
  destruct (Qle_bool c0 l0), (Qltb l1 c1), (Qle_bool c0 u0), (Qltb u1 c1);
    simpl; intuition (try discriminate; try lia).
Qed.

(** X16: the Bollinger signal loop, on a table whose band columns are as
    long as the closes, raises nothing and returns one signal per row; row
    0 keeps 0; row [i + 1] is +1 exactly when the close was at or below the
    lower band at row [i] and is above it at row [i + 1]; it is -1 exactly
    when that does not hold and the close was at or below the upper band
    and is above it now (the buy test comes first); otherwise 0. *)
Theorem bollinger_signals_are_crossings (closes lower upper : list Q) :
  length lower = length closes ->
  length upper = length closes ->
  exists signals,
    boll_generate_signals closes lower upper = Ok signals /\
    length signals = length closes /\
    (forall s, signals !! 0%nat = Some s -> s = 0) /\
    (forall i c0 l0 u0 c1 l1 u1,
       closes !! i = Some c0 -> lower !! i = Some l0 ->
       upper !! i = Some u0 ->
       closes !! S i = Some c1 -> lower !! S i = Some l1 ->
       upper !! S i = Some u1 ->
       exists s,
         signals !! S i = Some s /\
         (s = 1 <-> (c0 <= l0)%Q /\ (l1 < c1)%Q) /\
         (s = -1 <->
            ~ ((c0 <= l0)%Q /\ (l1 < c1)%Q) /\ (c0 <= u0)%Q /\ (u1 < c1)%Q) /\
         (s = -1 \/ s = 0 \/ s = 1)).
Proof.
  intros Hlo Hup.
  exists (signals_of boll_rule (zip closes (zip lower upper))).
  split; [apply boll_generate_signals_scan; assumption|].
  split; [rewrite length_signals_of, !length_zip_with; lia|]. split.
  - intros s. destruct (zip closes (zip lower upper)); simpl; congruence.
  - intros i c0 l0 u0 c1 l1 u1 Hc0 Hl0 Hu0 Hc1 Hl1 Hu1.
    exists (boll_cross c0 l0 u0 c1 l1 u1). split; [|apply boll_cross_spec].
    apply (signals_of_lookup boll_rule _ i (c0, (l0, u0)) (c1, (l1, u1)));
      apply lookup_zip_with_Some; do 2 eexists;
      (split; [reflexivity|]); (split; [eassumption|]);
      apply lookup_zip_with_Some; eauto.
Qed.

(** X17: the Bollinger loop never gives the same non-zero signal to two
    consecutive rows: after a +1 the close is above the lower band, after a
    -1 it is above the upper band, and the next crossing needs it at or
    below. *)
Theorem bollinger_no_repeat_on_next_bar (closes lower upper : list Q)
    (i : nat) :
  length lower = length closes ->
  length upper = length closes ->
  exists signals,
    boll_generate_signals closes lower upper = Ok signals /\
    forall s, signals !! i = Some s -> signals !! S i = Some s -> s = 0.
Proof.
  intros Hlo Hup.
  exists (signals_of boll_rule (zip closes (zip lower upper))).
  split; [apply boll_generate_signals_scan; assumption|].
  set (rows := zip closes (zip lower upper)).
  intros s Hi HSi.
  assert (HlenS : (S i < length rows)%nat).
  { apply lookup_lt_Some in HSi. rewrite length_signals_of in HSi. lia. }
  destruct i as [|i].
  { destruct rows; simpl in Hi; congruence. }
  assert (is_Some (rows !! i)) as [[c0 [l0 u0]] H0]
    by (apply lookup_lt_is_Some_2; lia).
  assert (is_Some (rows !! S i)) as [[c1 [l1 u1]] H1]
    by (apply lookup_lt_is_Some_2; lia).
  assert (is_Some (rows !! S (S i))) as [[c2 [l2 u2]] H2]
    by (apply lookup_lt_is_Some_2; lia).
  rewrite (signals_of_lookup boll_rule _ i _ _ H0 H1) in Hi.
  rewrite (signals_of_lookup boll_rule _ (S i) _ _ H1 H2) in HSi.
  injection Hi as Hi. injection HSi as HSi.
  unfold boll_rule in *. simpl in *.
  destruct (boll_cross_spec c0 l0 u0 c1 l1 u1) as (A1 & A2 & A3).
  destruct (boll_cross_spec c1 l1 u1 c2 l2 u2) as (B1 & B2 & B3).
  rewrite Hi in *. rewrite HSi in *.
  destruct A3 as [-> | [-> | ->]]; [|reflexivity|].
  - destruct (proj1 A2 eq_refl) as (_ & _ & Hx).
    destruct (proj1 B2 eq_refl) as (_ & Hy & _).
    exfalso. eapply Qlt_not_le; eauto.
  - destruct (proj1 A1 eq_refl) as [_ Hx].
    destruct (proj1 B1 eq_refl) as [Hy _].
    exfalso. eapply Qlt_not_le; eauto.
Qed.

(** * Indicators *)

Lemma ewm_from_bounds (alpha lo hi prev : Q) (col : list Q) :
  (0 <= alpha)%Q -> (alpha <= 1)%Q ->
  (lo <= prev)%Q /\ (prev <= hi)%Q ->
  Forall (fun x => (lo <= x)%Q /\ (x <= hi)%Q) col ->
  Forall (fun y => (lo <= y)%Q /\ (y <= hi)%Q) (ewm_from alpha prev col).
Proof.
  intros Ha0 Ha1. revert prev.
  induction col as [|x col IH]; intros prev Hprev Hall; simpl;
    [constructor|].
  apply Forall_cons in Hall as [Hx Hall].
  assert (Hy : (lo <= (1 - alpha) * prev + alpha * x)%Q /\
               ((1 - alpha) * prev + alpha * x <= hi)%Q).
  { destruct Hprev as [Hp1 Hp2], Hx as [Hx1 Hx2]. split; nra. }
  constructor; [exact Hy | apply IH; assumption].
Qed.

Lemma length_ewm_from (alpha prev : Q) (col : list Q) :
  length (ewm_from alpha prev col) = length col.
Proof.
  revert prev. induction col as [|x col IH]; intros prev; simpl;
    [reflexivity | rewrite IH; reflexivity].
Qed.

Lemma ewm_mean_ok (span : Z) (col : list Q) :
  1 <= span ->
  exists ema,
    ewm_mean span col = Ok ema /\ length ema = length col /\
    head ema = head col.
Proof.
  intros Hs. unfold ewm_mean.
  destruct (span <? 1) eqn:E; [lia|].
  eexists. split; [reflexivity|].
  destruct col; simpl; [auto | rewrite length_ewm_from; auto].
Qed.

Lemma ewm_mean_bounded (span : Z) (col : list Q) (lo hi : Q) :
  1 <= span ->
  Forall (fun x => (lo <= x)%Q /\ (x <= hi)%Q) col ->
  exists ema,
    ewm_mean span col = Ok ema /\
    length ema = length col /\
    head ema = head col /\
    Forall (fun y => (lo <= y)%Q /\ (y <= hi)%Q) ema.
Proof.
  intros Hs Hall.
  destruct (ewm_mean_ok span col Hs) as (ema & Hema & Hlen & Hhead).
  exists ema. split; [assumption|]. split; [assumption|].
  split; [assumption|].
  unfold ewm_mean in Hema. destruct (span <? 1) eqn:E; [discriminate|].
  injection Hema as <-.
  destruct col as [|x col]; [constructor|].
  apply Forall_cons in Hall as [Hx Hall].
  constructor; [assumption|].
  assert (Hden : (0 < inject_Z span + 1)%Q).
  { assert (0 <= inject_Z span)%Q
      by (change 0%Q with (inject_Z 0); rewrite <- Zle_Qle; lia). lra. }
  apply ewm_from_bounds; try assumption.
  - apply Qlt_le_weak, Qlt_shift_div_l; [assumption | lra].
  - apply Qle_shift_div_r; [assumption|].
    assert (1 <= inject_Z span)%Q
      by (change 1%Q with (inject_Z 1); rewrite <- Zle_Qle; lia). lra.
Qed.

(** X18: for a span of at least 1 the exponential average raises nothing,
    has one value per row, starts at the first value, and stays between any
    two bounds that hold all the values (each row is a weighted mean of the
    row before and the new value). *)
Theorem ewm_mean_within_bounds (span : Z) (col : list Q) (lo hi : Q) :
  1 <= span ->
  Forall (fun x => (lo <= x)%Q /\ (x <= hi)%Q) col ->
  exists ema,
    ewm_mean span col = Ok ema /\
    length ema = length col /\
    head ema = head col /\
    Forall (fun y => (lo <= y)%Q /\ (y <= hi)%Q) ema.
Proof.
  intros Hs Hall.
  destruct (ewm_mean_bounded span col lo hi Hs Hall)
    as (ema & Hema & Hlen & Hhead & Hbounds).
  exists ema. split; [exact Hema|]. split; [exact Hlen|].
  split; [exact Hhead | exact Hbounds].
Qed.

Lemma zip_minus_bounds (lo hi : Q) (xs ys : list Q) :
  Forall (fun x => (lo <= x)%Q /\ (x <= hi)%Q) xs ->
  Forall (fun y => (lo <= y)%Q /\ (y <= hi)%Q) ys ->
  Forall (fun d => (lo - hi <= d)%Q /\ (d <= hi - lo)%Q)
    (zip_with Qminus xs ys).
Proof.
  intros Hx Hy. apply Forall_lookup. intros i d Hd.
  apply lookup_zip_with_Some in Hd as (x & y & -> & Hxi & Hyi).
  rewrite Forall_lookup in Hx, Hy.
  destruct (Hx i x Hxi), (Hy i y Hyi). split; lra.
Qed.

(** X19: on a non-empty table with periods of at least 1 the MACD
    indicators are computed without raising; every column has one value per
    row; at row 0 both averages equal the first close and DIF, DEA and the
    histogram are 0; DIF and DEA stay within the spread of the closes:
    between lo - hi and hi - lo for any bounds lo and hi of the closes. *)
Theorem macd_indicators_shape (fast_period slow_period signal_period : Z)
    (closes : list Q) (lo hi : Q) :
  1 <= fast_period -> 1 <= slow_period -> 1 <= signal_period ->
  closes <> [] ->
  Forall (fun x => (lo <= x)%Q /\ (x <= hi)%Q) closes ->
  exists cols,
    macd_calculate_indicators fast_period slow_period signal_period closes
      = Ok (Some cols) /\
    (length (EMA_fast cols) = length closes /\
     length (EMA_slow cols) = length closes /\
     length (DIF cols) = length closes /\
     length (DEA cols) = length closes /\
     length (MACD cols) = length closes) /\
    (head (EMA_fast cols) = head closes /\
     head (EMA_slow cols) = head closes /\
     (forall d, head (DIF cols) = Some d -> (d == 0)%Q) /\
     (forall e, head (DEA cols) = Some e -> (e == 0)%Q) /\
     (forall m, head (MACD cols) = Some m -> (m == 0)%Q)) /\
    Forall (fun d => (lo - hi <= d)%Q /\ (d <= hi - lo)%Q) (DIF cols) /\
    Forall (fun e => (lo - hi <= e)%Q /\ (e <= hi - lo)%Q) (DEA cols).
Proof.
  intros Hf Hs Hg Hne Hall.
  destruct (ewm_mean_bounded fast_period closes lo hi Hf Hall)
    as (fast & Hfast & Lfast & Hdfast & Bfast).
  destruct (ewm_mean_bounded slow_period closes lo hi Hs Hall)
    as (slow & Hslow & Lslow & Hdslow & Bslow).
  pose proof (zip_minus_bounds lo hi fast slow Bfast Bslow) as Bdif.
  destruct (ewm_mean_bounded signal_period (zip_with Qminus fast slow)
              (lo - hi) (hi - lo) Hg Bdif)
    as (dea & Hdea & Ldea & Hddea & Bdea).
  assert (Ldif : length (zip_with Qminus fast slow) = length closes)
    by (rewrite length_zip_with; lia).
  eexists. split.
  { unfold macd_calculate_indicators.
    destruct closes as [|c closes]; [congruence|].
    rewrite Hfast. simpl. rewrite Hslow. simpl. rewrite Hdea. reflexivity. }
  simpl. split.
  { repeat split; try assumption; try lia.
    rewrite length_zip_with. lia. }
  split; [|split; assumption].
  destruct closes as [|c closes]; [congruence|].
  destruct fast as [|f0 fast]; [discriminate|].
  destruct slow as [|s0 slow]; [discriminate|].
  simpl in Hdfast, Hdslow. injection Hdfast as ->. injection Hdslow as ->.
  simpl in Hddea. destruct dea as [|e0 dea]; [discriminate|].
  simpl in Hddea. injection Hddea as ->. simpl.
  repeat split; try reflexivity; intros x [= <-]; ring.
Qed.

Lemma last_zip_with {A B C : Type} (f : A -> B -> C) (l : list A)
    (k : list B) (x : A) (y : B) :
  length k = length l -> last l = Some x -> last k = Some y ->
  last (zip_with f l k) = Some (f x y).
Proof.
  rewrite !last_lookup. intros Hlen Hx Hy.
  rewrite length_zip_with, Hlen, Nat.min_id.
  apply lookup_zip_with_Some. rewrite Hlen in Hy. eauto.
Qed.

Lemma macd_bars_shape (rows : list (Z * Q)) (signals : list Z) :
  length signals = length rows ->
  Forall (fun r => (0 < snd r)%Q) rows ->
  positive_closes (macd_bars rows signals) /\
  elapsed_days (macd_bars rows signals) =
    match head rows, last rows with
    | Some first, Some final => Some (fst final - fst first)
    | _, _ => None
    end.
Proof.
  intros Hlen Hpos. split.
  - intros bar Hbar. apply list_elem_of_lookup in Hbar as [i Hi].
    unfold macd_bars in Hi.
    apply lookup_zip_with_Some in Hi as (r & s & -> & Hr & _). simpl.
    rewrite Forall_lookup in Hpos. eapply Hpos; eauto.
  - unfold elapsed_days.
    destruct rows as [|r rows]; [reflexivity|].
    destruct signals as [|s signals]; [discriminate|].
    assert (is_Some (last (r :: rows))) as [final Hfinal]
      by (apply last_is_Some; discriminate).
    assert (is_Some (last (s :: signals))) as [sfinal Hsfinal]
      by (apply last_is_Some; discriminate).
    unfold macd_bars.
    rewrite (last_zip_with _ _ _ final sfinal Hlen Hfinal Hsfinal), Hfinal.
    reflexivity.
Qed.

(** X20: [run] with the MACD methods, with periods of at least 1 and
    positive closes: without data and on an empty table it returns False;
    on a table whose first and last dates coincide (a single bar, for one)
    it raises ZeroDivisionError from the performance report; on every other
    table it raises nothing and returns True. *)
Theorem macd_run_outcome (float_pow : Q -> Q -> Q)
    (fast_period slow_period signal_period : Z) (initial_capital : Q)
    (rows : list (Z * Q)) :
  1 <= fast_period -> 1 <= slow_period -> 1 <= signal_period ->
  Forall (fun r => (0 < snd r)%Q) rows ->
  macd_run float_pow fast_period slow_period signal_period initial_capital
    None = Ok false /\
  macd_run float_pow fast_period slow_period signal_period initial_capital
    (Some rows) =
    match head rows, last rows with
    | Some first, Some final =>
        if fst final - fst first =? 0 then Raise ZeroDivisionError
        else Ok true
    | _, _ => Ok false
    end.
Proof.
  intros Hf Hs Hg Hpos. split; [reflexivity|].
  destruct rows as [|r rows]; [reflexivity|].
  remember (snd <$> r :: rows) as closes eqn:Hcloses.
  assert (Lcloses : length closes = length (r :: rows))
    by (subst closes; apply length_fmap).
  destruct (ewm_mean_ok fast_period closes Hf) as (fast & Hfast & Lfast & _).
  destruct (ewm_mean_ok slow_period closes Hs) as (slow & Hslow & Lslow & _).
  destruct (ewm_mean_ok signal_period (zip_with Qminus fast slow) Hg)
    as (dea & Hdea & Ldea & _).
  assert (Ldif : length (zip_with Qminus fast slow) = length (r :: rows))
    by (rewrite length_zip_with; lia).
  unfold macd_run. rewrite <- Hcloses. unfold macd_calculate_indicators.
  destruct closes as [|c closes']; [discriminate|].
  rewrite Hfast. unfold mbind, result_bind. rewrite Hslow. unfold mbind, result_bind.
  rewrite Hdea. unfold mbind, result_bind. cbv iota. simpl DIF. simpl DEA.
  rewrite macd_generate_signals_scan by lia. unfold mbind, result_bind.
  set (signals := signals_of macd_rule (zip (zip_with Qminus fast slow) dea)).
  assert (Lsig : length signals = length (r :: rows)).
  { unfold signals. rewrite length_signals_of, length_zip_with. lia. }
  destruct (macd_bars_shape (r :: rows) signals Lsig Hpos) as [Hbpos Hdays].
  destruct (backtest_timeline_rows initial_capital _ Hbpos)
    as (f & Hrun & Hwf & _).
  pose proof (calculate_performance_outcome float_pow initial_capital
                _ f Hwf) as Hperf.
  rewrite Hdays in Hperf.
  assert (is_Some (last (r :: rows))) as [final Hfinal]
    by (apply last_is_Some; discriminate).
  rewrite Hfinal in *. cbn [head] in *.
  unfold backtest. rewrite Hrun. unfold mbind, result_bind.
  destruct (fst final - fst r =? 0).
  - rewrite Hperf. reflexivity.
  - destruct Hperf as (perf & -> & _). reflexivity.
Qed.


(** * Instances of the further properties *)

Lemma example_data_positive : positive_closes example_data.
Proof. apply positive_closes_forallb. reflexivity. Qed.

Lemma flat_data_no_buy : no_buy_upto flat_data (length flat_data - 1).
Proof.
  intros j bar Hj Hbar.
  destruct j as [|[|[|j]]]; simpl in *; try lia;
    injection Hbar as <-; simpl; lia.
Qed.

Lemma trades_conserve_equity_witness :
  exists f c p e,
    backtest_timeline 100 example_data = Ok f /\
    cash f !! (4 - 1)%nat = Some c /\
    position f !! (4 - 1)%nat = Some p /\
    total_assets f !! 4%nat = Some e /\
    (e == c + inject_Z p * close (mkBar 4 15 (-1)))%Q.
Proof.
  apply (trades_conserve_equity 100 example_data 4 (mkBar 4 15 (-1))).
  - exact example_data_positive.
  - lia.
  - reflexivity.
Defined.

Lemma single_position_witness :
  exists f,
    backtest_timeline 100 example_data = Ok f /\
    forall k bar, example_data !! k = Some bar ->
      exists s p,
        backtest_upto 100 example_data k = Ok s /\
        position f !! k = Some p /\ 0 <= p /\
        ((current_position s = 0 /\ p = 0) \/
         (current_position s = 1 /\ p > 0)).
Proof.
  exact (single_position 100 example_data example_data_positive).
Defined.

Lemma no_buy_signal_stays_flat_witness :
  exists f,
    backtest_timeline 100 flat_data = Ok f /\
    cash f = replicate (length flat_data) 100%Q /\
    position f = replicate (length flat_data) 0 /\
    length (total_assets f) = length flat_data /\
    Forall (fun e => (e == 100)%Q) (total_assets f).
Proof.
  exact (no_buy_signal_stays_flat 100 flat_data flat_data_no_buy).
Defined.

Lemma zero_close_on_buy_raises_witness :
  backtest_timeline 100 zero_close_data =
    Raise (if Qeq_bool 100 0 then ValueError else OverflowError).
Proof.
  apply (zero_close_on_buy_raises 100 zero_close_data 1 (mkBar 1 0 1)).
  - lia.
  - reflexivity.
  - reflexivity.
  - reflexivity.
  - intros j bar Hj. simpl in Hj. lia.
Defined.


Lemma backtest_outcome_witness :
  match elapsed_days example_data with
  | None => backtest pow_example 100 example_data = Raise IndexError
  | Some days =>
      if days =? 0
      then backtest pow_example 100 example_data = Raise ZeroDivisionError
      else exists f perf,
          backtest pow_example 100 example_data = Ok (f, perf) /\
          backtest_timeline 100 example_data = Ok f /\
          last (total_assets f) = Some (perf_final_capital perf) /\
          max_drawdown perf = max_drawdown_of (total_assets f) /\
          trade_count perf = length (nonzero_signals example_data)
  end.
Proof.
  exact (backtest_outcome pow_example 100 example_data example_data_positive).
Defined.

Lemma no_buy_signal_report_witness :
  exists f perf m,
    backtest pow_example 100 flat_data = Ok (f, perf) /\
    (perf_final_capital perf == 100)%Q /\
    (total_return perf == 0)%Q /\
    max_drawdown perf = Some m /\ (m == 0)%Q.
Proof.
  apply (no_buy_signal_report pow_example 100 flat_data 2).
  - reflexivity.
  - exact flat_data_no_buy.
  - reflexivity.
  - lia.
Defined.

Lemma equity_positive_drawdown_bounded_witness :
  exists f m,
    backtest_timeline 100 example_data = Ok f /\
    (forall i e, total_assets f !! i = Some e -> (0 < e)%Q) /\
    max_drawdown_of (total_assets f) = Some m /\
    (-100 < m)%Q /\ (m <= 0)%Q.
Proof.
  apply (equity_positive_drawdown_bounded 100 example_data).
  - exact example_data_positive.
  - reflexivity.
  - discriminate.
Defined.

Lemma example_data_signals :
  Forall (fun b => signal b = -1 \/ signal b = 0 \/ signal b = 1) example_data.
Proof. repeat constructor; simpl; lia. Qed.

Lemma example_data_no_double_buy (b n : Bar) :
  adjacent_in (sort_index (nonzero_signals example_data)) b n ->
  signal b = 1 -> signal n <> 1.
Proof.
  intros (before & after & Heq) Hb.
  change (sort_index (nonzero_signals example_data))
    with [mkBar 2 8 1; mkBar 4 15 (-1)] in Heq.
  destruct before as [|x [|y before]]; simpl in Heq.
  - injection Heq as <- <- _. simpl. lia.
  - injection Heq as _ <- Heq. discriminate.
  - injection Heq as _ _ Heq. destruct before; discriminate.
Qed.

Lemma pairing_first_buy_when_alternating_witness :
  exists pr,
    pair_trades example_data = Ok pr /\
    trade_records pr =
      first_buy_next_sell None (sort_index (nonzero_signals example_data)).
Proof.
  exact (pairing_first_buy_when_alternating example_data
           example_data_signals example_data_no_double_buy).
Defined.

Lemma example_data_increasing : increasing_dates example_data.
Proof.
  unfold increasing_dates, example_data, bars_of; simpl. repeat constructor.
Qed.

Lemma trade_records_chronological_witness :
  exists pr,
    pair_trades example_data = Ok pr /\
    StronglySorted Z.lt (trade_dates (trade_records pr)).
Proof.
  exact (trade_records_chronological example_data example_data_increasing).
Defined.

Lemma macd_signals_are_crossings_witness :
  exists signals,
    macd_generate_signals dif_example dea_example = Ok signals /\
    length signals = length dif_example /\
    (forall s, signals !! 0%nat = Some s -> s = 0) /\
    (forall i d0 e0 d1 e1,
       dif_example !! i = Some d0 -> dea_example !! i = Some e0 ->
       dif_example !! S i = Some d1 -> dea_example !! S i = Some e1 ->
       exists s,
         signals !! S i = Some s /\
         (s = 1 <-> (d0 < e0)%Q /\ (e1 < d1)%Q) /\
         (s = -1 <-> (e0 < d0)%Q /\ (d1 < e1)%Q) /\
         (s = -1 \/ s = 0 \/ s = 1)).
Proof.
  exact (macd_signals_are_crossings dif_example dea_example eq_refl).
Defined.



Lemma macd_no_repeat_on_next_bar_witness :
  exists signals,
    macd_generate_signals dif_example dea_example = Ok signals /\
    forall s, signals !! 1%nat = Some s -> signals !! 2%nat = Some s -> s = 0.
Proof.
  exact (macd_no_repeat_on_next_bar dif_example dea_example 1 eq_refl).
Defined.

Lemma bollinger_signals_are_crossings_witness :
  exists signals,
    boll_generate_signals boll_closes_example boll_lower_example
      boll_upper_example = Ok signals /\
    length signals = length boll_closes_example /\
    (forall s, signals !! 0%nat = Some s -> s = 0) /\
    (forall i c0 l0 u0 c1 l1 u1,
       boll_closes_example !! i = Some c0 ->
       boll_lower_example !! i = Some l0 ->
       boll_upper_example !! i = Some u0 ->
       boll_closes_example !! S i = Some c1 ->
       boll_lower_example !! S i = Some l1 ->
       boll_upper_example !! S i = Some u1 ->
       exists s,
         signals !! S i = Some s /\
         (s = 1 <-> (c0 <= l0)%Q /\ (l1 < c1)%Q) /\
         (s = -1 <->
            ~ ((c0 <= l0)%Q /\ (l1 < c1)%Q) /\ (c0 <= u0)%Q /\ (u1 < c1)%Q) /\
         (s = -1 \/ s = 0 \/ s = 1)).
Proof.
  exact (bollinger_signals_are_crossings boll_closes_example
           boll_lower_example boll_upper_example eq_refl eq_refl).
Defined.

Lemma bollinger_no_repeat_on_next_bar_witness :
  exists signals,
    boll_generate_signals boll_closes_example boll_lower_example
      boll_upper_example = Ok signals /\
    forall s, signals !! 1%nat = Some s -> signals !! 2%nat = Some s -> s = 0.
Proof.
  exact (bollinger_no_repeat_on_next_bar boll_closes_example
           boll_lower_example boll_upper_example 1 eq_refl eq_refl).
Defined.

Lemma example_closes_bounds :
  Forall (fun x => (8 <= x)%Q /\ (x <= 15)%Q) [10; 9; 8; 12; 15]%Q.
Proof. repeat constructor; vm_compute; discriminate. Qed.

Lemma ewm_mean_within_bounds_witness :
  exists ema,
    ewm_mean 12 [10; 9; 8; 12; 15]%Q = Ok ema /\
    length ema = length [10; 9; 8; 12; 15]%Q /\
    head ema = head [10; 9; 8; 12; 15]%Q /\
    Forall (fun y => (8 <= y)%Q /\ (y <= 15)%Q) ema.
Proof.
  apply (ewm_mean_within_bounds 12 [10; 9; 8; 12; 15]%Q 8 15).
  - lia.
  - exact example_closes_bounds.
Defined.

Lemma macd_indicators_shape_witness :
  exists cols,
    macd_calculate_indicators 12 26 9 [10; 9; 8; 12; 15]%Q = Ok (Some cols) /\
    (length (EMA_fast cols) = length [10; 9; 8; 12; 15]%Q /\
     length (EMA_slow cols) = length [10; 9; 8; 12; 15]%Q /\
     length (DIF cols) = length [10; 9; 8; 12; 15]%Q /\
     length (DEA cols) = length [10; 9; 8; 12; 15]%Q /\
     length (MACD cols) = length [10; 9; 8; 12; 15]%Q) /\
    (head (EMA_fast cols) = head [10; 9; 8; 12; 15]%Q /\
     head (EMA_slow cols) = head [10; 9; 8; 12; 15]%Q /\
     (forall d, head (DIF cols) = Some d -> (d == 0)%Q) /\
     (forall e, head (DEA cols) = Some e -> (e == 0)%Q) /\
     (forall m, head (MACD cols) = Some m -> (m == 0)%Q)) /\
    Forall (fun d => (8 - 15 <= d)%Q /\ (d <= 15 - 8)%Q) (DIF cols) /\
    Forall (fun e => (8 - 15 <= e)%Q /\ (e <= 15 - 8)%Q) (DEA cols).
Proof.
  apply (macd_indicators_shape 12 26 9 [10; 9; 8; 12; 15]%Q 8 15).
  - lia.
  - lia.
  - lia.
  - discriminate.
  - exact example_closes_bounds.
Defined.

Lemma macd_rows_example_positive :
  Forall (fun r => (0 < snd r)%Q) macd_rows_example.
Proof. repeat constructor. Qed.

Lemma macd_run_outcome_witness :
  macd_run pow_example 12 26 9 100000 None = Ok false /\
  macd_run pow_example 12 26 9 100000 (Some macd_rows_example) =
    match head macd_rows_example, last macd_rows_example with
    | Some first, Some final =>
        if fst final - fst first =? 0 then Raise ZeroDivisionError
        else Ok true
    | _, _ => Ok false
    end.
Proof.
  apply (macd_run_outcome pow_example 12 26 9 100000 macd_rows_example).
  - lia.
  - lia.
  - lia.
  - exact macd_rows_example_positive.
Defined.

(** * From the MACD signals to the trade ledger *)








